(** * gopackkit / password: a shallow embedding of [password.go]

    The password policy engine of the repository: validation against a
    configurable policy, the heuristic strength score, hashing and
    verification through bcrypt, and random password generation.

    Go data is modelled as the code has it:
    - a Go [string] is a sequence of 8-bit bytes: Stdlib's [string];
      [len(s)] is its number of bytes, [s[i]] its i-th byte;
    - a [[]byte] is a [list ascii];
    - [for _, char := range s] walks the runes of [s], decoded from UTF-8
      the way the Go runtime does (an invalid byte yields U+FFFD and is
      one byte wide);
    - [int] is the 64-bit integer of the target platform, as [Z];
    - a run-time panic (index out of range, [make] with a length out of
      range) is an explicit outcome, and so is the end of the program
      when [make] finds no memory. *)

From Stdlib Require Import ZArith Ascii String List Bool Lia.
From stdpp Require Import base tactics list strings pretty finite.

Local Open Scope string_scope.
Local Open Scope Z_scope.

(** ** Bytes, runes and UTF-8 *)

Definition rune := Z.

(** The numeric value of a byte. *)
Definition byte_val (c : ascii) : Z := Z.of_N (N_of_ascii c).

(** [len(s)] *)
Definition len (s : string) : Z := Z.of_nat (String.length s).

(** [[]byte(s)] and [string(b)] *)
Definition bytes_of (s : string) : list ascii := list_ascii_of_string s.
Definition string_of (b : list ascii) : string := string_of_list_ascii b.

Definition RuneError : rune := 65533.
Definition RuneSelf : Z := 128.

Definition is_cont (b : Z) : bool := (128 <=? b) && (b <=? 191).

(** For a leading byte of a multi-byte sequence: its width and the range
    the second byte must lie in (the [first] and [acceptRanges] tables of
    [unicode/utf8]). *)
Definition accept (b0 : Z) : option (nat * Z * Z) :=
  if (194 <=? b0) && (b0 <=? 223) then Some (2%nat, 128, 191)
  else if b0 =? 224 then Some (3%nat, 160, 191)
  else if b0 =? 237 then Some (3%nat, 128, 159)
  else if (225 <=? b0) && (b0 <=? 239) then Some (3%nat, 128, 191)
  else if b0 =? 240 then Some (4%nat, 144, 191)
  else if b0 =? 244 then Some (4%nat, 128, 143)
  else if (241 <=? b0) && (b0 <=? 243) then Some (4%nat, 128, 191)
  else None.

(** [utf8.DecodeRuneInString]: the first rune of [b0 :: rest] and its
    width in bytes. *)
Definition decodeRune (b0 : Z) (rest : list Z) : rune * nat :=
  if b0 <? RuneSelf then (b0, 1%nat)
  else
    match accept b0 with
    | None => (RuneError, 1%nat)
    | Some (sz, lo, hi) =>
        match rest with
        | b1 :: rest1 =>
            if negb ((lo <=? b1) && (b1 <=? hi)) then (RuneError, 1%nat)
            else if (sz =? 2)%nat then
              (Z.lor (Z.shiftl (Z.land b0 31) 6) (Z.land b1 63), 2%nat)
            else
              match rest1 with
              | b2 :: rest2 =>
                  if negb (is_cont b2) then (RuneError, 1%nat)
                  else if (sz =? 3)%nat then
                    (Z.lor (Z.shiftl (Z.land b0 15) 12)
                       (Z.lor (Z.shiftl (Z.land b1 63) 6) (Z.land b2 63)), 3%nat)
                  else
                    match rest2 with
                    | b3 :: _ =>
                        if negb (is_cont b3) then (RuneError, 1%nat)
                        else
                          (Z.lor (Z.shiftl (Z.land b0 7) 18)
                             (Z.lor (Z.shiftl (Z.land b1 63) 12)
                                (Z.lor (Z.shiftl (Z.land b2 63) 6) (Z.land b3 63))),
                           4%nat)
                    | [] => (RuneError, 1%nat)
                    end
              | [] => (RuneError, 1%nat)
              end
        | [] => (RuneError, 1%nat)
        end
    end.

(** The runes a [range] loop over a string yields; [skip] counts the
    bytes of the current rune still to be passed over. *)
Fixpoint decode_from (bs : list Z) (skip : nat) : list rune :=
  match bs with
  | [] => []
  | b0 :: rest =>
      match skip with
      | S k => decode_from rest k
      | O => let '(r, w) := decodeRune b0 rest in r :: decode_from rest (pred w)
      end
  end.

Definition runes (s : string) : list rune :=
  decode_from (map byte_val (bytes_of s)) 0.

(** [utf8.EncodeRune]: surrogates and values out of range are written as
    U+FFFD. *)
Definition byte_of (z : Z) : ascii := ascii_of_N (Z.to_N z).

Definition encodeRune (r : rune) : list ascii :=
  if (0 <=? r) && (r <? 128) then [byte_of r]
  else if (128 <=? r) && (r <? 2048) then
    [byte_of (Z.lor 192 (Z.shiftr r 6)); byte_of (Z.lor 128 (Z.land r 63))]
  else if (r <? 0) || (1114111 <? r) || ((55296 <=? r) && (r <=? 57343)) then
    [byte_of 239; byte_of 191; byte_of 189]
  else if r <? 65536 then
    [byte_of (Z.lor 224 (Z.shiftr r 12));
     byte_of (Z.lor 128 (Z.land (Z.shiftr r 6) 63));
     byte_of (Z.lor 128 (Z.land r 63))]
  else
    [byte_of (Z.lor 240 (Z.shiftr r 18));
     byte_of (Z.lor 128 (Z.land (Z.shiftr r 12) 63));
     byte_of (Z.lor 128 (Z.land (Z.shiftr r 6) 63));
     byte_of (Z.lor 128 (Z.land r 63))].

(** [string(runes)] *)
Definition string_of_runes (rs : list rune) : string :=
  string_of (concat (map encodeRune rs)).

(** The rune of a character literal, ['A']. *)
Definition rn (c : ascii) : rune := byte_val c.

(** [s[i]] on a string: [None] is the index-out-of-range panic. *)
Definition str_index (s : string) (i : Z) : option ascii :=
  if i <? 0 then None else String.get (Z.to_nat i) s.

(** [s[i : i+n]] for indices within the string. *)
Definition str_slice (s : string) (i n : nat) : string := String.substring i n s.

(** [strings.Contains] *)
Fixpoint strings_Contains (s substr : string) : bool :=
  String.prefix substr s ||
  match s with
  | EmptyString => false
  | String _ s' => strings_Contains s' substr
  end.

(** [strings.Join] *)
Fixpoint strings_Join (elems : list string) (sep : string) : string :=
  match elems with
  | [] => ""
  | [e] => e
  | e :: rest => e +:+ sep +:+ strings_Join rest sep
  end.

(** The 256 bytes, listed: what counting arguments on byte strings
    start from. *)
#[global] Program Instance ascii_finite : Finite ascii :=
  {| enum := ascii_of_nat <$> seq 0 256 |}.
Next Obligation.
  apply NoDup_fmap_2_strong; [| apply NoDup_seq].
  intros x y Hx Hy E. apply elem_of_seq in Hx, Hy.
  rewrite <- (nat_ascii_embedding x), <- (nat_ascii_embedding y) by lia.
  rewrite E. reflexivity.
Qed.
Next Obligation.
  intros c. apply list_elem_of_fmap. exists (nat_of_ascii c).
  split; [symmetry; apply ascii_nat_embedding |].
  apply elem_of_seq. pose proof (nat_ascii_bounded c). lia.
Qed.

(** ** The data model *)

(** [type Config struct] *)
Module Config.
Record t := mk {
  MinLength : Z;
  MaxLength : Z;
  RequireUpper : bool;
  RequireLower : bool;
  RequireDigit : bool;
  RequireSpecial : bool;
  BcryptCost : Z
}.
End Config.

(** [type Manager struct { config Config }] *)
Record Manager := { config : Config.t }.

(** [type PasswordStrength int] and its constants *)
Inductive PasswordStrength :=
  | StrengthWeak
  | StrengthFair
  | StrengthGood
  | StrengthStrong
  | StrengthVeryStrong.

(** [type PasswordValidation struct] *)
Module PasswordValidation.
Record t := mk {
  Valid : bool;
  Strength : PasswordStrength;
  Score : Z;
  Errors : list string;
  Suggestions : list string
}.
End PasswordValidation.

(** [type HashedPassword struct]; [CreatedAt] is the reading of the clock. *)
Module HashedPassword.
Record t := mk {
  Hash : string;
  Algorithm : string;
  Cost : Z;
  CreatedAt : Z
}.
End HashedPassword.

(** The package's error values ([errors.New]): each is one object,
    compared by identity. *)
Inductive sentinel :=
  | ErrPasswordTooShort
  | ErrPasswordTooLong
  | ErrPasswordTooWeak
  | ErrInvalidHash
  | ErrHashingFailed
  | ErrVerificationFailed.

(** The errors of [golang.org/x/crypto/bcrypt]. *)
Module bcrypt.
Inductive error :=
  | ErrMismatchedHashAndPassword
  | ErrHashTooShort
  | ErrPasswordTooLong
  | InvalidCostError (cost : Z)
  | HashVersionTooNewError (version : ascii)
  | InvalidHashPrefixError (first : ascii)
  | OtherError (text : string).

Definition MinCost : Z := 4.
Definition MaxCost : Z := 31.
Definition DefaultCost : Z := 10.

Inductive result (A : Type) :=
  | Ok (a : A)
  | Err (e : error).
Arguments Ok {A} a.
Arguments Err {A} e.
End bcrypt.

(** The [error] values the package returns: one of its own error values,
    or one of them wrapped by [fmt.Errorf] with a text ([%w: %s]) or with
    the text of a bcrypt error ([%w: %v]). *)
Inductive error :=
  | Sentinel (s : sentinel)
  | Errorf_w_s (s : sentinel) (text : string)
  | Errorf_w_v (s : sentinel) (cause : bcrypt.error).

Definition sentinel_eqb (a b : sentinel) : bool :=
  match a, b with
  | ErrPasswordTooShort, ErrPasswordTooShort
  | ErrPasswordTooLong, ErrPasswordTooLong
  | ErrPasswordTooWeak, ErrPasswordTooWeak
  | ErrInvalidHash, ErrInvalidHash
  | ErrHashingFailed, ErrHashingFailed
  | ErrVerificationFailed, ErrVerificationFailed => true
  | _, _ => false
  end.

(** [errors.Is(err, target)] for a target among the package's error
    values: [%w] is the only operand [fmt.Errorf] wraps. *)
Definition errors_Is (err : error) (target : sentinel) : bool :=
  match err with
  | Sentinel s => sentinel_eqb s target
  | Errorf_w_s s _ => sentinel_eqb s target
  | Errorf_w_v s _ => sentinel_eqb s target
  end.

(** ** Construction and configuration *)

(** [func NewWithConfig(config Config) *Manager] *)
Definition NewWithConfig (config : Config.t) : Manager :=
  let MinLength := if Config.MinLength config =? 0 then 8 else Config.MinLength config in
  let MaxLength := if Config.MaxLength config =? 0 then 128 else Config.MaxLength config in
  let BcryptCost := if Config.BcryptCost config =? 0 then 12 else Config.BcryptCost config in
  let BcryptCost := if BcryptCost <? 4 then 4 else BcryptCost in
  let BcryptCost := if BcryptCost >? 31 then 31 else BcryptCost in
  {| config := Config.mk MinLength MaxLength
                 (Config.RequireUpper config) (Config.RequireLower config)
                 (Config.RequireDigit config) (Config.RequireSpecial config)
                 BcryptCost |}.

(** [func New() *Manager] *)
Definition New : Manager :=
  NewWithConfig (Config.mk 8 128 true true true false 12).

(** [func (pm *Manager) GetConfig() Config] *)
Definition GetConfig (pm : Manager) : Config.t := config pm.

(** [func (pm *Manager) UpdateConfig(config Config)]: the manager after
    the call. *)
Definition UpdateConfig (pm : Manager) (config : Config.t) : Manager :=
  {| config := config |}.

(** The managers a program can hold: built by [New] or [NewWithConfig],
    then changed by [UpdateConfig] any number of times. *)
Inductive reachable : Manager -> Prop :=
  | reach_New : reachable New
  | reach_NewWithConfig c : reachable (NewWithConfig c)
  | reach_UpdateConfig pm c : reachable pm -> reachable (UpdateConfig pm c).

(** ** Character classes *)

(** [func containsUpper(s string) bool] *)
Definition containsUpper (s : string) : bool :=
  existsb (fun char => (char >=? rn "A") && (char <=? rn "Z")) (runes s).

(** [func containsLower(s string) bool] *)
Definition containsLower (s : string) : bool :=
  existsb (fun char => (char >=? rn "a") && (char <=? rn "z")) (runes s).

(** [func containsDigit(s string) bool] *)
Definition containsDigit (s : string) : bool :=
  existsb (fun char => (char >=? rn "0") && (char <=? rn "9")) (runes s).

Definition specialChars : string := "!@#$%^&*()_+-=[]{}|;:,.<>?".

(** [func containsSpecial(s string) bool] *)
Definition containsSpecial (s : string) : bool :=
  existsb (fun char => existsb (fun special => char =? special) (runes specialChars))
    (runes s).

(** [func hasRepeatingChars(s string) bool] *)
Definition hasRepeatingChars (s : string) : bool :=
  if len s <? 3 then false
  else
    existsb
      (fun i =>
         match String.get i s, String.get (i + 1) s, String.get (i + 2) s with
         | Some a, Some b, Some c => Ascii.eqb a b && Ascii.eqb b c
         | _, _, _ => false
         end)
      (seq 0 (Z.to_nat (len s - 2))).

(** [func reverse(s string) string] *)
Definition reverse (s : string) : string := string_of_runes (rev (runes s)).

Definition sequences : list string :=
  [ "abcdefghijklmnopqrstuvwxyz";
    "ABCDEFGHIJKLMNOPQRSTUVWXYZ";
    "0123456789";
    "qwertyuiopasdfghjklzxcvbnm" ].

Definition is_ascii_string (s : string) : bool :=
  forallb (fun c => byte_val c <? RuneSelf) (bytes_of s).

Definition lower_byte (c : ascii) : ascii :=
  if (rn "A" <=? byte_val c) && (byte_val c <=? rn "Z")
  then byte_of (byte_val c + (rn "a" - rn "A")) else c.

(** [strings.Map(mapping, s)]: a negative result drops the character. *)
Definition strings_Map (mapping : rune -> rune) (s : string) : string :=
  string_of
    (concat (map (fun c => let r := mapping c in
                           if 0 <=? r then encodeRune r else [])
                 (runes s))).

(** ** Random numbers *)

(** One call of [rand.Read] on a 4-byte buffer: the four bytes read, or a
    failure, in which case [randomInt] reads the clock
    ([time.Now().UnixNano()]). *)
Inductive Draw :=
  | ReadOk (b0 b1 b2 b3 : ascii)
  | ReadFailed (unixNano : Z).

(** Computations that draw random numbers and may panic. The state is
    the number of draws made so far; [None] is a run-time panic. *)
Definition Rand (A : Type) : Type := nat -> option (A * nat).

Definition ret {A} (a : A) : Rand A := fun k => Some (a, k).

Definition bind {A B} (m : Rand A) (f : A -> Rand B) : Rand B :=
  fun k => match m k with
           | Some (a, k') => f a k'
           | None => None
           end.

Definition panic {A} : Rand A := fun _ => None.

Notation "x <- m ;; f" := (bind m (fun x => f))
  (at level 100, m at next level, right associativity).

(** A [for] loop over [l] that threads the loop's variables [s]. *)
Fixpoint for_each {A S} (l : list A) (body : S -> A -> Rand S) (s : S) : Rand S :=
  match l with
  | [] => ret s
  | a :: rest => s' <- body s a ;; for_each rest body s'
  end.

(** Reading an option: [None] is the panic of the operation. *)
Definition must {A} (o : option A) : Rand A :=
  match o with
  | Some a => ret a
  | None => panic
  end.

Section Generation.

(** The number of bytes (not negative) that the runtime can still
    obtain from the machine when [GenerateRandomPassword] is called. A
    request beyond them ends the program with the runtime's fatal
    "out of memory": the call does not return. The two requests whose
    size the caller chooses are counted, [make([]byte, length)] and the
    copy that [string(password)] makes; the few bytes of [charset] and
    [required] are taken as served. *)
Variable free_memory : Z.

(** The sequence of results of the successive [rand.Read] calls. *)
Variable rand_Read : nat -> Draw.

(** [func randomInt(max int) int] *)
Definition randomInt (max : Z) : Rand Z :=
  fun k =>
    if max <=? 0 then Some (0, k)
    else
      match rand_Read k with
      | ReadFailed unixNano => Some (Z.rem unixNano max, S k)
      | ReadOk b0 b1 b2 b3 =>
          let n := Z.lor (Z.lor (Z.lor (Z.shiftl (byte_val b0) 24)
                                        (Z.shiftl (byte_val b1) 16))
                                 (Z.shiftl (byte_val b2) 8))
                         (byte_val b3) in
          let n := if n <? 0 then - n else n in
          Some (Z.rem n max, S k)
      end.

Definition lowercase : string := "abcdefghijklmnopqrstuvwxyz".
Definition uppercase : string := "ABCDEFGHIJKLMNOPQRSTUVWXYZ".
Definition digits : string := "0123456789".
Definition special : string := "!@#$%^&*()_+-=[]{}|;:,.<>?".

(** One of the four blocks that extend [charset] and [required]:
    [if enabled { charset += class;
                  required = append(required, class[randomInt(len(class))]) }] *)
Definition add_class (enabled : bool) (class : string)
    (acc : string * list ascii) : Rand (string * list ascii) :=
  let '(charset, required) := acc in
  if enabled then
    i <- randomInt (len class) ;;
    c <- must (str_index class i) ;;
    ret (charset +:+ class, (required ++ [c])%list)
  else ret (charset, required).

(** [password[i], password[j] = password[j], password[i]] *)
Definition swap (password : list ascii) (i : nat) (j : Z) : Rand (list ascii) :=
  if j <? 0 then panic
  else
    a <- must (password !! i) ;;
    b <- must (password !! Z.to_nat j) ;;
    ret (<[Z.to_nat j := a]> (<[i := b]> password)).

(** The part of [GenerateRandomPassword] under the comment
    [// Build charset and required characters based on config]. *)
Definition build_charset (cfg : Config.t) : Rand (string * list ascii) :=
  acc <- add_class (Config.RequireLower cfg) lowercase ("", []) ;;
  acc <- add_class (Config.RequireUpper cfg) uppercase acc ;;
  acc <- add_class (Config.RequireDigit cfg) digits acc ;;
  add_class (Config.RequireSpecial cfg) special acc.

(** The largest size [make] accepts, [runtime.maxAlloc]: [1 << 48] on
    linux/amd64, the platform the repository builds for. For a negative
    length or one above it [runtime.makeslice] panics with
    ["makeslice: len out of range"]. *)
Definition maxAlloc : Z := 2 ^ 48.

(** The part of [GenerateRandomPassword] from [// Generate password]
    to the end of the shuffle. *)
Definition generate_password (length : Z) (charset : string)
    (required : list ascii) : Rand (list ascii) :=
  (* make([]byte, length): a length out of range panics, and without
     the memory for it the program ends *)
  if (length <? 0) || (maxAlloc <? length) then panic
  else if free_memory <? length then panic
  else
    let password := replicate (Z.to_nat length) zero in
    (* place required characters first *)
    let password :=
      foldl (fun password '(i, char) =>
               if Z.of_nat i <? length then <[i := char]> password else password)
            password (imap (fun i char => (i, char)) required) in
    (* fill remaining positions *)
    password <-
      for_each (seq (List.length required) (Z.to_nat length - List.length required))
        (fun password i =>
           j <- randomInt (len charset) ;;
           c <- must (str_index charset j) ;;
           ret (<[i := c]> password))
        password ;;
    (* shuffle the password *)
    for_each (seq 0 (List.length password))
      (fun password i =>
         j <- randomInt (Z.of_nat (List.length password)) ;;
         swap password i j)
      password.

(** [func (pm *Manager) GenerateRandomPassword(length int) (string, error)] *)
Definition GenerateRandomPassword (pm : Manager) (length : Z)
    : Rand (string * option error) :=
  let cfg := config pm in
  let length := if length <? Config.MinLength cfg then Config.MinLength cfg else length in
  let length := if length >? Config.MaxLength cfg then Config.MaxLength cfg else length in
  acc <- build_charset cfg ;;
  let '(charset, required) := acc in
  (* if no requirements, use all characters *)
  let charset := if String.eqb charset "" then lowercase +:+ uppercase +:+ digits
                 else charset in
  password <- generate_password length charset required ;;
  (* string(password): a copy of the bytes, made while [password] is live *)
  if free_memory - length <? Z.of_nat (List.length password) then panic
  else ret (string_of password, None).

End Generation.

(** ** Validation, strength, hashing and verification *)

Section Password.

(** What the package takes from outside the repository.

    [unicode_table]: the lower-case mapping of Go's [unicode] package
    on the runes above U+007F (its case tables).

    [bcrypt_GenerateFromPassword salt password cost] and
    [bcrypt_CompareHashAndPassword hash password]: the two functions
    of [golang.org/x/crypto/bcrypt] the package calls; [salt] is what
    bcrypt reads from [crypto/rand], [None] when that read fails. *)
Variable unicode_table : rune -> rune.
Variable bcrypt_GenerateFromPassword :
  option (list ascii) -> list ascii -> Z -> bcrypt.result (list ascii).
Variable bcrypt_CompareHashAndPassword :
  list ascii -> list ascii -> option bcrypt.error.

(** [unicode.ToLower] *)
Definition unicode_ToLower (r : rune) : rune :=
  if r <=? 127 then
    if (rn "A" <=? r) && (r <=? rn "Z") then r + (rn "a" - rn "A") else r
  else unicode_table r.

(** [strings.ToLower]: bytewise on an ASCII string, by runes otherwise. *)
Definition strings_ToLower (s : string) : string :=
  if is_ascii_string s then string_of (map lower_byte (bytes_of s))
  else strings_Map unicode_ToLower s.

(** [func containsSequence(s, sequence string, length int) bool] *)
Definition containsSequence (s sequence : string) (length : Z) : bool :=
  existsb
    (fun i =>
       let subseq := str_slice sequence i (Z.to_nat length) in
       strings_Contains (strings_ToLower s) subseq)
    (seq 0 (Z.to_nat (len sequence - length + 1))).

(** [func hasSequentialChars(s string) bool] *)
Definition hasSequentialChars (s : string) : bool :=
  if len s <? 3 then false
  else
    existsb
      (fun sequence =>
         containsSequence s sequence 3 || containsSequence s (reverse sequence) 3)
      sequences.

(** [func (pm *Manager) calculateStrength(password string) (PasswordStrength, int)] *)
Definition calculateStrength (pm : Manager) (password : string)
    : PasswordStrength * Z :=
  let score := 0 in
  let length := len password in
  let score := if length >=? 8 then score + 1 else score in
  let score := if length >=? 12 then score + 1 else score in
  let score := if length >=? 16 then score + 1 else score in
  let score := if containsLower password then score + 1 else score in
  let score := if containsUpper password then score + 1 else score in
  let score := if containsDigit password then score + 1 else score in
  let score := if containsSpecial password then score + 2 else score in
  let score := if negb (hasRepeatingChars password) then score + 1 else score in
  let score := if negb (hasSequentialChars password) then score + 1 else score in
  if score >=? 9 then (StrengthVeryStrong, score)
  else if score >=? 7 then (StrengthStrong, score)
  else if score >=? 5 then (StrengthGood, score)
  else if score >=? 3 then (StrengthFair, score)
  else (StrengthWeak, score).

(** The three statements of a failed check of [Validate]: clear
    [Valid], append the message, append the suggestion if there is one. *)
Definition violation (v : PasswordValidation.t) (message : string)
    (suggestion : option string) : PasswordValidation.t :=
  PasswordValidation.mk false
    (PasswordValidation.Strength v) (PasswordValidation.Score v)
    (PasswordValidation.Errors v ++ [message])%list
    (match suggestion with
     | Some t => (PasswordValidation.Suggestions v ++ [t])%list
     | None => PasswordValidation.Suggestions v
     end).

Definition msg_too_short (MinLength : Z) : string :=
  "Password must be at least " +:+ pretty MinLength +:+ " characters long".
Definition msg_too_long (MaxLength : Z) : string :=
  "Password must not exceed " +:+ pretty MaxLength +:+ " characters".
Definition msg_upper : string := "Password must contain at least one uppercase letter".
Definition msg_lower : string := "Password must contain at least one lowercase letter".
Definition msg_digit : string := "Password must contain at least one digit".
Definition msg_special : string := "Password must contain at least one special character".

(** [func (pm *Manager) Validate(password string) PasswordValidation] *)
Definition Validate (pm : Manager) (password : string) : PasswordValidation.t :=
  let cfg := config pm in
  let validation := PasswordValidation.mk true StrengthWeak 0 [] [] in
  let validation :=
    if len password <? Config.MinLength cfg
    then violation validation (msg_too_short (Config.MinLength cfg))
           (Some "Use a longer password")
    else validation in
  let validation :=
    if len password >? Config.MaxLength cfg
    then violation validation (msg_too_long (Config.MaxLength cfg)) None
    else validation in
  let validation :=
    if Config.RequireUpper cfg && negb (containsUpper password)
    then violation validation msg_upper (Some "Add uppercase letters (A-Z)")
    else validation in
  let validation :=
    if Config.RequireLower cfg && negb (containsLower password)
    then violation validation msg_lower (Some "Add lowercase letters (a-z)")
    else validation in
  let validation :=
    if Config.RequireDigit cfg && negb (containsDigit password)
    then violation validation msg_digit (Some "Add numbers (0-9)")
    else validation in
  let validation :=
    if Config.RequireSpecial cfg && negb (containsSpecial password)
    then violation validation msg_special (Some "Add special characters (!@#$%^&*)")
    else validation in
  let '(strength, score) := calculateStrength pm password in
  PasswordValidation.mk (PasswordValidation.Valid validation) strength score
    (PasswordValidation.Errors validation) (PasswordValidation.Suggestions validation).

(** [func (pm *Manager) Hash(password string)], which returns a
    [*HashedPassword] and an [error];
    [now] is the reading of the clock, [salt] the bytes bcrypt draws. *)
Definition Hash (pm : Manager) (salt : option (list ascii)) (now : Z)
    (password : string) : option HashedPassword.t * option error :=
  let validation := Validate pm password in
  if negb (PasswordValidation.Valid validation) then
    (None, Some (Errorf_w_s ErrPasswordTooWeak
                   (strings_Join (PasswordValidation.Errors validation) ", ")))
  else
    match bcrypt_GenerateFromPassword salt (bytes_of password)
            (Config.BcryptCost (config pm)) with
    | bcrypt.Err err => (None, Some (Errorf_w_v ErrHashingFailed err))
    | bcrypt.Ok hashBytes =>
        (Some (HashedPassword.mk (string_of hashBytes) "bcrypt"
                 (Config.BcryptCost (config pm)) now),
         None)
    end.

(** [func (pm *Manager) HashString(password string) (string, error)] *)
Definition HashString (pm : Manager) (salt : option (list ascii)) (now : Z)
    (password : string) : string * option error :=
  match Hash pm salt now password with
  | (Some hashedPassword, None) => (HashedPassword.Hash hashedPassword, None)
  | (_, err) => ("", err)
  end.

(** [func (pm *Manager) Verify(password, hash string) error] *)
Definition Verify (pm : Manager) (password hash : string) : option error :=
  if String.eqb hash "" then Some (Sentinel ErrInvalidHash)
  else
    match bcrypt_CompareHashAndPassword (bytes_of hash) (bytes_of password) with
    | Some err =>
        match err with
        | bcrypt.ErrMismatchedHashAndPassword => Some (Sentinel ErrVerificationFailed)
        | _ => Some (Errorf_w_v ErrVerificationFailed err)
        end
    | None => None
    end.

(** [func (pm *Manager) VerifyAndCheck(password, hash string) (bool, error)] *)
Definition VerifyAndCheck (pm : Manager) (password hash : string)
    : bool * option error :=
  match Verify pm password hash with
  | Some err =>
      if errors_Is err ErrVerificationFailed then (false, None)
      else (false, Some err)
  | None => (true, None)
  end.

End Password.

(** ** What the package relies on from bcrypt

    The behaviour of [golang.org/x/crypto/bcrypt] that the package's
    callers see, as the library documents it: passwords of more than 72
    bytes are refused by [GenerateFromPassword]; a cost below [MinCost]
    is replaced by [DefaultCost] and a cost above [MaxCost] is refused;
    a hash that was generated compares equal to its password; a hash of
    fewer than 59 bytes is too short to be read; and the comparison uses
    the first 72 bytes of the password only. *)
Record bcrypt_contract
    (GenerateFromPassword :
       option (list ascii) -> list ascii -> Z -> bcrypt.result (list ascii))
    (CompareHashAndPassword :
       list ascii -> list ascii -> option bcrypt.error) : Prop := {
  gen_too_long : forall salt password cost,
    (72 < List.length password)%nat ->
    GenerateFromPassword salt password cost = bcrypt.Err bcrypt.ErrPasswordTooLong;
  gen_bad_cost : forall salt password cost,
    (List.length password <= 72)%nat -> bcrypt.MaxCost < cost ->
    GenerateFromPassword salt password cost = bcrypt.Err (bcrypt.InvalidCostError cost);
  gen_no_salt : forall password cost,
    exists e, GenerateFromPassword None password cost = bcrypt.Err e;
  gen_ok : forall salt password cost,
    List.length salt = 16%nat -> (List.length password <= 72)%nat ->
    cost <= bcrypt.MaxCost ->
    exists h, GenerateFromPassword (Some salt) password cost = bcrypt.Ok h;
  gen_length : forall salt password cost h,
    GenerateFromPassword salt password cost = bcrypt.Ok h ->
    List.length h = 60%nat;
  gen_compare : forall salt password cost h,
    GenerateFromPassword salt password cost = bcrypt.Ok h ->
    CompareHashAndPassword h password = None;
  compare_short : forall h password,
    (List.length h < 59)%nat ->
    CompareHashAndPassword h password = Some bcrypt.ErrHashTooShort;
  compare_72 : forall h password password',
    take 72 password = take 72 password' ->
    CompareHashAndPassword h password = CompareHashAndPassword h password'
}.

(** How [CompareHashAndPassword] decides on a hash that
    [GenerateFromPassword] made: it reads the salt and the cost from the
    hash, hashes the given password with them (its first 72 bytes, the
    only ones bcrypt's key schedule reads), and returns
    [ErrMismatchedHashAndPassword] unless that gives the stored hash. *)
Record bcrypt_compare_contract
    (GenerateFromPassword :
       option (list ascii) -> list ascii -> Z -> bcrypt.result (list ascii))
    (CompareHashAndPassword :
       list ascii -> list ascii -> option bcrypt.error) : Prop := {
  compare_mismatch : forall salt password cost h password',
    GenerateFromPassword salt password cost = bcrypt.Ok h ->
    GenerateFromPassword salt (take 72 password') cost <> bcrypt.Ok h ->
    CompareHashAndPassword h password' = Some bcrypt.ErrMismatchedHashAndPassword
}.

(** An implementation of the contract, used to instantiate the theorems
    below: the "hash" is a header of 29 bytes followed by the first 31
    bytes of the password's 72-byte prefix folded by exclusive or. It is
    not bcrypt and hides nothing; it shows that the contract can be met. *)
Module Plain.

Definition xor_byte (a b : ascii) : ascii :=
  byte_of (Z.lxor (byte_val a) (byte_val b)).

(** Folds [l] into [acc], position by position, wrapping around. *)
Fixpoint fold_into (acc : list ascii) (i : nat) (l : list ascii) : list ascii :=
  match l with
  | [] => acc
  | c :: rest =>
      let j := (i mod 31)%nat in
      fold_into (alter (xor_byte c) j acc) (S i) rest
  end.

Definition digest (password : list ascii) : list ascii :=
  fold_into (replicate 31 zero) 0 (take 72 password).

Definition header : list ascii := replicate 29 "$"%char.

Definition GenerateFromPassword (salt : option (list ascii))
    (password : list ascii) (cost : Z) : bcrypt.result (list ascii) :=
  if (72 <? List.length password)%nat then bcrypt.Err bcrypt.ErrPasswordTooLong
  else
    let cost := if cost <? bcrypt.MinCost then bcrypt.DefaultCost else cost in
    if bcrypt.MaxCost <? cost then bcrypt.Err (bcrypt.InvalidCostError cost)
    else
      match salt with
      | None => bcrypt.Err (bcrypt.OtherError "unexpected EOF")
      | Some _ => bcrypt.Ok (header ++ digest password)%list
      end.

Definition CompareHashAndPassword (h password : list ascii) : option bcrypt.error :=
  if (List.length h <? 59)%nat then Some bcrypt.ErrHashTooShort
  else if bool_decide (drop 29 h = digest password) then None
  else Some bcrypt.ErrMismatchedHashAndPassword.

(** The identity on the runes above U+007F, for [unicode_table]. *)
Definition table (r : rune) : rune := r.

End Plain.

(** ** The properties of the specification, in its own words *)

(** A character of the class is present in [s]. *)
Definition has_rune_in (lo hi : rune) (s : string) : Prop :=
  exists r, In r (runes s) /\ lo <= r <= hi.

Definition has_special (s : string) : Prop :=
  exists r, In r (runes s) /\ In r (runes specialChars).

(** Every enabled required class is present. *)
Definition classes_present (cfg : Config.t) (s : string) : Prop :=
  (Config.RequireUpper cfg = true -> has_rune_in (rn "A") (rn "Z") s) /\
  (Config.RequireLower cfg = true -> has_rune_in (rn "a") (rn "z") s) /\
  (Config.RequireDigit cfg = true -> has_rune_in (rn "0") (rn "9") s) /\
  (Config.RequireSpecial cfg = true -> has_special s).

(** The number of characters of [s]. *)
Definition char_count (s : string) : Z := Z.of_nat (List.length (runes s)).

(** [n] clamped into [[lo, hi]]. *)
Definition clamp (lo hi n : Z) : Z := Z.min hi (Z.max lo n).

Definition b2z (b : bool) (n : Z) : Z := if b then n else 0.

(** The number of required classes the policy enables. *)
Definition required_count (cfg : Config.t) : Z :=
  b2z (Config.RequireLower cfg) 1 + b2z (Config.RequireUpper cfg) 1 +
  b2z (Config.RequireDigit cfg) 1 + b2z (Config.RequireSpecial cfg) 1.

(** The clock never reads a time before 1970 when [randomInt] falls back
    on it. *)
Definition clock_after_epoch (rand_Read : nat -> Draw) : Prop :=
  forall k, match rand_Read k with
            | ReadFailed unixNano => 0 <= unixNano
            | ReadOk _ _ _ _ => True
            end.

(** bcrypt gives the first 72 bytes of [p2] the hash it gives [p], under
    the same salt and cost: [p2] and [p] collide. *)
Definition same_bcrypt_hash
    (GenerateFromPassword :
       option (list ascii) -> list ascii -> Z -> bcrypt.result (list ascii))
    (salt : option (list ascii)) (cost : Z) (p2 p : string) : Prop :=
  GenerateFromPassword salt (take 72 (bytes_of p2)) cost =
  GenerateFromPassword salt (bytes_of p) cost.

(** ** The reads of a run of [GenerateRandomPassword] *)

(** The read that delivers the four bytes of [r], most significant first. *)
Definition draw_of_value (r : Z) : Draw :=
  ReadOk (byte_of (r / 256 / 256 / 256)) (byte_of ((r / 256 / 256) mod 256))
         (byte_of ((r / 256) mod 256)) (byte_of (r mod 256)).

(** The arguments of the successive [randomInt] calls of
    [GenerateRandomPassword(n)]: one per enabled class ([class_draws]),
    then one per position to fill, then one per position to shuffle
    ([draws_of]). *)
Definition class_draws (cfg : Config.t) : list Z :=
  ((if Config.RequireLower cfg then [len lowercase] else []) ++
   (if Config.RequireUpper cfg then [len uppercase] else []) ++
   (if Config.RequireDigit cfg then [len digits] else []) ++
   (if Config.RequireSpecial cfg then [len special] else []))%list.

(** The character set [GenerateRandomPassword] fills from, once the
    empty set has been replaced by all letters and digits. *)
Definition charset_of (cfg : Config.t) : string :=
  let charset := "" in
  let charset := if Config.RequireLower cfg then charset +:+ lowercase else charset in
  let charset := if Config.RequireUpper cfg then charset +:+ uppercase else charset in
  let charset := if Config.RequireDigit cfg then charset +:+ digits else charset in
  let charset := if Config.RequireSpecial cfg then charset +:+ special else charset in
  if String.eqb charset "" then lowercase +:+ uppercase +:+ digits else charset.

(** The length [GenerateRandomPassword(n)] works with, as the code
    computes it. *)
Definition clamped_length (cfg : Config.t) (n : Z) : Z :=
  let length := if n <? Config.MinLength cfg then Config.MinLength cfg else n in
  if length >? Config.MaxLength cfg then Config.MaxLength cfg else length.

(** All the arguments of [randomInt] in a run, in order. *)
Definition draws_of (cfg : Config.t) (n : Z) : list Z :=
  let L := clamped_length cfg n in
  (class_draws cfg ++
   replicate (Z.to_nat L - List.length (class_draws cfg)) (len (charset_of cfg)) ++
   replicate (Z.to_nat L) L)%list.

(** The source [rand_Read] with every failed read, from the [k]-th on,
    replaced by a read that succeeds and delivers what [randomInt]
    returned on the failure; [maxes] are the arguments of the calls. *)
Definition repaired (rand_Read : nat -> Draw) (k : nat) (maxes : list Z) : nat -> Draw :=
  fun i =>
    match rand_Read i with
    | ReadFailed unixNano =>
        match maxes !! (i - k)%nat with
        | Some max => draw_of_value (Z.rem unixNano max)
        | None => draw_of_value 0
        end
    | ReadOk b0 b1 b2 b3 => ReadOk b0 b1 b2 b3
    end.

(** A source none of whose reads fails. *)
Definition healthy (rand_Read : nat -> Draw) : Prop :=
  forall i, exists b0 b1 b2 b3, rand_Read i = ReadOk b0 b1 b2 b3.

(** The two sources give [randomInt] the same results along [maxes]. *)
Definition agree_on (src src' : nat -> Draw) (k : nat) (maxes : list Z) : Prop :=
  forall (j : nat) max, maxes !! j = Some max ->
    randomInt src' max (k + j)%nat = randomInt src max (k + j)%nat.

(** ** Sample inputs *)

(** The two bytes of U+00E9 in UTF-8, and [n] copies of it. *)
Definition e_acute : list ascii := [byte_of 195; byte_of 169].

Fixpoint copies (n : nat) (c : list ascii) : list ascii :=
  match n with
  | O => []
  | S m => (c ++ copies m c)%list
  end.

(** A password of 17 bytes that earns every point of the score. *)
Definition full_score_password : string := "Tr0ub4dor&3xKq!Zm".

(** A password of 72 bytes and one of 73 bytes that extends it; both
    satisfy the default policy. *)
Definition password72 : string :=
  "Aa1" +:+ string_of (replicate 69 "x"%char).
Definition password73 : string := password72 +:+ "y".

(** A source whose reads all succeed and one whose reads all fail. *)
Definition healthy_source (k : nat) : Draw :=
  ReadOk zero zero zero (byte_of (Z.of_nat (7 * k + 3))).
Definition failing_source (k : nat) : Draw :=
  ReadFailed (Z.of_nat (7 * k + 3)).

(** A policy of at least two characters that requires three classes. *)
Definition short_policy : Manager :=
  NewWithConfig (Config.mk 2 128 true true true false 12).

(** Sixteen bytes of salt. *)
Definition salt16 : list ascii := replicate 16 zero.

(** A gibibyte of free memory. *)
Definition ample_memory : Z := 2 ^ 30.

(** The default policy with a [MaxLength] of [1 << 62]. *)
Definition huge_policy : Manager :=
  NewWithConfig (Config.mk 8 (2 ^ 62) true true true false 12).

(** ** Rehash detection *)

Section Rehash.

(** [bcrypt.Cost(hashedPassword)], the third function of
    [golang.org/x/crypto/bcrypt] the package calls. *)
Variable bcrypt_Cost : list ascii -> bcrypt.result Z.

(** [func (pm *Manager) NeedsRehash(hash string) bool] *)
Definition NeedsRehash (pm : Manager) (hash : string) : bool :=
  match bcrypt_Cost (bytes_of hash) with
  | bcrypt.Err _ => true
  | bcrypt.Ok cost => negb (cost =? Config.BcryptCost (config pm))
  end.

End Rehash.

(** The cost bcrypt works with when it is asked for [cost]
    ([newFromPassword]: a cost below [MinCost] becomes [DefaultCost]). *)
Definition effective_cost (cost : Z) : Z :=
  if cost <? bcrypt.MinCost then bcrypt.DefaultCost else cost.

(** What the package relies on from [bcrypt.Cost]: it reads back the
    cost a generated hash was computed with, and cannot read a hash of
    fewer than 59 bytes. *)
Record bcrypt_cost_contract
    (GenerateFromPassword :
       option (list ascii) -> list ascii -> Z -> bcrypt.result (list ascii))
    (Cost : list ascii -> bcrypt.result Z) : Prop := {
  cost_generated : forall salt password cost h,
    GenerateFromPassword salt password cost = bcrypt.Ok h ->
    Cost h = bcrypt.Ok (effective_cost cost);
  cost_short : forall h,
    (List.length h < 59)%nat -> Cost h = bcrypt.Err bcrypt.ErrHashTooShort
}.

(** A second implementation, whose hashes carry the cost the way
    bcrypt's do: [$2a$], two decimal digits, [$], 22 bytes in place of
    the salt, and the 31 bytes of [Plain.digest]. [Plain]'s comparison
    reads these hashes too. *)
Module Coded.

Definition digit (n : Z) : ascii := byte_of (byte_val "0" + n).

Definition header (cost : Z) : list ascii :=
  (bytes_of "$2a$" ++ [digit (cost / 10); digit (cost mod 10)] ++ bytes_of "$" ++
   replicate 22 "."%char)%list.

Definition GenerateFromPassword (salt : option (list ascii))
    (password : list ascii) (cost : Z) : bcrypt.result (list ascii) :=
  if (72 <? List.length password)%nat then bcrypt.Err bcrypt.ErrPasswordTooLong
  else
    let cost := if cost <? bcrypt.MinCost then bcrypt.DefaultCost else cost in
    if bcrypt.MaxCost <? cost then bcrypt.Err (bcrypt.InvalidCostError cost)
    else
      match salt with
      | None => bcrypt.Err (bcrypt.OtherError "unexpected EOF")
      | Some _ => bcrypt.Ok (header cost ++ Plain.digest password)%list
      end.

Definition Cost (h : list ascii) : bcrypt.result Z :=
  if (List.length h <? 59)%nat then bcrypt.Err bcrypt.ErrHashTooShort
  else
    match h !! 4%nat, h !! 5%nat with
    | Some d1, Some d2 =>
        bcrypt.Ok (10 * (byte_val d1 - byte_val "0") + (byte_val d2 - byte_val "0"))
    | _, _ => bcrypt.Err bcrypt.ErrHashTooShort
    end.

End Coded.

(** ** Properties of the code, in plain terms *)

(** A byte of the class is present in [s]. *)
Definition has_byte_in (lo hi : Z) (s : string) : Prop :=
  exists c, In c (bytes_of s) /\ lo <= byte_val c <= hi.

Definition has_special_byte (s : string) : Prop :=
  exists c, In c (bytes_of s) /\ In c (bytes_of specialChars).

(** The same byte three times in a row. *)
Definition has_triple (s : string) : Prop :=
  exists pre c post, bytes_of s = (pre ++ [c; c; c] ++ post)%list.

(** [pm'] asks no more than [pm]. *)
Definition relaxes (cfg' cfg : Config.t) : Prop :=
  Config.MinLength cfg' <= Config.MinLength cfg /\
  Config.MaxLength cfg <= Config.MaxLength cfg' /\
  (Config.RequireUpper cfg' = true -> Config.RequireUpper cfg = true) /\
  (Config.RequireLower cfg' = true -> Config.RequireLower cfg = true) /\
  (Config.RequireDigit cfg' = true -> Config.RequireDigit cfg = true) /\
  (Config.RequireSpecial cfg' = true -> Config.RequireSpecial cfg = true).

(** * Properties *)

(** ** Construction and configuration *)

Lemma NewWithConfig_cost_range (c : Config.t) :
  4 <= Config.BcryptCost (config (NewWithConfig c)) <= 31.
Proof.
  unfold NewWithConfig; simpl.
  destruct (Config.BcryptCost c =? 0) eqn:E0.
  - simpl. lia.
  - destruct (Config.BcryptCost c <? 4) eqn:E4.
    + simpl. lia.
    + destruct (Config.BcryptCost c >? 31) eqn:E31; lia.
Qed.

Lemma NewWithConfig_defaults :
  let pm := NewWithConfig (Config.mk 0 0 false false false false 0) in
  Config.MinLength (config pm) = 8 /\
  Config.MaxLength (config pm) = 128 /\
  Config.BcryptCost (config pm) = 12.
Proof. repeat split. Qed.

Lemma NewWithConfig_lengths_nonzero (c : Config.t) :
  Config.MinLength (config (NewWithConfig c)) <> 0 /\
  Config.MaxLength (config (NewWithConfig c)) <> 0.
Proof.
  unfold NewWithConfig; simpl; split.
  - destruct (Config.MinLength c =? 0) eqn:E; lia.
  - destruct (Config.MaxLength c =? 0) eqn:E; lia.
Qed.

(** C6. The cost factor of a reachable manager is not always within
    4..31: [NewWithConfig] clamps it, [UpdateConfig] stores the
    configuration it is given as it is. After [New()] and
    [UpdateConfig] with a cost of 32 the manager is reachable and its
    cost is 32. *)
Theorem UpdateConfig_stores_cost_unclamped :
  let pm := UpdateConfig New (Config.mk 8 128 true true true false 32) in
  reachable pm /\
  Config.BcryptCost (config pm) = 32 /\
  ~ (4 <= Config.BcryptCost (config pm) <= 31).
Proof.
  simpl. split; [| split].
  - apply reach_UpdateConfig, reach_New.
  - reflexivity.
  - lia.
Qed.

(** ** Validation *)

Section ValidateFacts.

Variable unicode_table : rune -> rune.
Variable pm : Manager.
Variable password : string.

Let cfg := config pm.

Lemma Validate_Valid :
  PasswordValidation.Valid (Validate unicode_table pm password) =
  negb (len password <? Config.MinLength cfg) &&
  negb (len password >? Config.MaxLength cfg) &&
  negb (Config.RequireUpper cfg && negb (containsUpper password)) &&
  negb (Config.RequireLower cfg && negb (containsLower password)) &&
  negb (Config.RequireDigit cfg && negb (containsDigit password)) &&
  negb (Config.RequireSpecial cfg && negb (containsSpecial password)).
Proof.
  unfold Validate, cfg.
  destruct (calculateStrength unicode_table pm password) as [strength score].
  destruct (len password <? _), (len password >? _),
    (Config.RequireUpper _ && _), (Config.RequireLower _ && _),
    (Config.RequireDigit _ && _), (Config.RequireSpecial _ && _);
    reflexivity.
Qed.

Lemma Validate_Errors :
  PasswordValidation.Errors (Validate unicode_table pm password) =
  ((if len password <? Config.MinLength cfg
    then [msg_too_short (Config.MinLength cfg)] else []) ++
   (if len password >? Config.MaxLength cfg
    then [msg_too_long (Config.MaxLength cfg)] else []) ++
   (if Config.RequireUpper cfg && negb (containsUpper password)
    then [msg_upper] else []) ++
   (if Config.RequireLower cfg && negb (containsLower password)
    then [msg_lower] else []) ++
   (if Config.RequireDigit cfg && negb (containsDigit password)
    then [msg_digit] else []) ++
   (if Config.RequireSpecial cfg && negb (containsSpecial password)
    then [msg_special] else []))%list.
Proof.
  unfold Validate, cfg.
  destruct (calculateStrength unicode_table pm password) as [strength score].
  destruct (len password <? _), (len password >? _),
    (Config.RequireUpper _ && _), (Config.RequireLower _ && _),
    (Config.RequireDigit _ && _), (Config.RequireSpecial _ && _);
    reflexivity.
Qed.

Lemma Validate_Score :
  PasswordValidation.Score (Validate unicode_table pm password) =
  snd (calculateStrength unicode_table pm password).
Proof.
  unfold Validate.
  destruct (calculateStrength unicode_table pm password) as [strength score].
  reflexivity.
Qed.

Lemma Validate_invalid_has_errors :
  PasswordValidation.Valid (Validate unicode_table pm password) = false ->
  PasswordValidation.Errors (Validate unicode_table pm password) <> [].
Proof.
  rewrite Validate_Valid, Validate_Errors.
  destruct (len password <? _), (len password >? _),
    (Config.RequireUpper _ && _), (Config.RequireLower _ && _),
    (Config.RequireDigit _ && _), (Config.RequireSpecial _ && _);
    simpl; intros H; try discriminate H; intros E; discriminate E.
Qed.

End ValidateFacts.

Lemma existsb_range (lo hi : rune) (l : list rune) :
  existsb (fun char => (char >=? lo) && (char <=? hi)) l = true <->
  exists r, In r l /\ lo <= r <= hi.
Proof.
  rewrite existsb_exists. split.
  - intros (r & Hin & Hr). exists r. split; [exact Hin | lia].
  - intros (r & Hin & Hr). exists r. split; [exact Hin | lia].
Qed.

Lemma containsUpper_spec (s : string) :
  containsUpper s = true <-> has_rune_in (rn "A") (rn "Z") s.
Proof. apply existsb_range. Qed.

Lemma containsLower_spec (s : string) :
  containsLower s = true <-> has_rune_in (rn "a") (rn "z") s.
Proof. apply existsb_range. Qed.

Lemma containsDigit_spec (s : string) :
  containsDigit s = true <-> has_rune_in (rn "0") (rn "9") s.
Proof. apply existsb_range. Qed.

Lemma containsSpecial_spec (s : string) :
  containsSpecial s = true <-> has_special s.
Proof.
  unfold containsSpecial, has_special. rewrite existsb_exists. split.
  - intros (r & Hin & Hex). apply existsb_exists in Hex as (q & Hq & Heq).
    apply Z.eqb_eq in Heq. subst q. exists r. auto.
  - intros (r & Hin & Hsp). exists r. split; [exact Hin |].
    apply existsb_exists. exists r. split; [exact Hsp | apply Z.eqb_refl].
Qed.

Lemma required_class_ok (req has : bool) (P : Prop) :
  (has = true <-> P) ->
  (negb (req && negb has) = true <-> (req = true -> P)).
Proof.
  intros [H1 H2]. destruct req, has; simpl; intuition congruence.
Qed.

(** C7. [Validate(p).Valid] is true exactly when the byte length of [p]
    lies within [MinLength, MaxLength] and every class the policy
    requires (uppercase, lowercase, digit, special) has a character in
    [p]; the score and the strength tier play no part in it. *)
Theorem Validate_Valid_iff (unicode_table : rune -> rune) (pm : Manager) (p : string) :
  PasswordValidation.Valid (Validate unicode_table pm p) = true <->
  (Config.MinLength (config pm) <= len p <= Config.MaxLength (config pm)) /\
  classes_present (config pm) p.
Proof.
  rewrite Validate_Valid. unfold classes_present.
  rewrite !andb_true_iff.
  rewrite (required_class_ok _ _ _ (containsUpper_spec p)).
  rewrite (required_class_ok _ _ _ (containsLower_spec p)).
  rewrite (required_class_ok _ _ _ (containsDigit_spec p)).
  rewrite (required_class_ok _ _ _ (containsSpecial_spec p)).
  rewrite !negb_true_iff.
  assert ((len p <? Config.MinLength (config pm)) = false <->
          Config.MinLength (config pm) <= len p) as -> by lia.
  assert ((len p >? Config.MaxLength (config pm)) = false <->
          len p <= Config.MaxLength (config pm)) as -> by lia.
  tauto.
Qed.

(** ** The strength score *)

Lemma calculateStrength_score_bounds (unicode_table : rune -> rune)
    (pm : Manager) (p : string) :
  0 <= snd (calculateStrength unicode_table pm p) <= 10.
Proof.
  unfold calculateStrength.
  destruct (len p >=? 8), (len p >=? 12), (len p >=? 16),
    (containsLower p), (containsUpper p), (containsDigit p),
    (containsSpecial p), (hasRepeatingChars p),
    (hasSequentialChars unicode_table p); simpl; lia.
Qed.

Lemma full_score (unicode_table : rune -> rune) (pm : Manager) :
  calculateStrength unicode_table pm full_score_password = (StrengthVeryStrong, 10).
Proof. vm_compute. reflexivity. Qed.

(** C8. The score [Validate] computes is at most 10 for every plaintext,
    and some plaintext scores exactly 10. *)
Theorem Validate_Score_max (unicode_table : rune -> rune) (pm : Manager) :
  (forall p, PasswordValidation.Score (Validate unicode_table pm p) <= 10) /\
  (exists p, PasswordValidation.Score (Validate unicode_table pm p) = 10).
Proof.
  split.
  - intros p. rewrite Validate_Score.
    apply (calculateStrength_score_bounds unicode_table pm p).
  - exists full_score_password. rewrite Validate_Score, full_score. reflexivity.
Qed.

(** ** Length is counted in bytes *)

Lemma msg_too_short_tag (n : Z) : String.get 14 (msg_too_short n) = Some "b"%char.
Proof. reflexivity. Qed.

Lemma msg_too_long_tag (n : Z) : String.get 14 (msg_too_long n) = Some "n"%char.
Proof. reflexivity. Qed.

Lemma msg_too_short_only (m : Z) (x : string) :
  String.get 14 x <> Some "b"%char -> msg_too_short m <> x.
Proof. intros H E. apply H. rewrite <- E. apply msg_too_short_tag. Qed.

Lemma msg_too_long_only (m : Z) (x : string) :
  String.get 14 x <> Some "n"%char -> msg_too_long m <> x.
Proof. intros H E. apply H. rewrite <- E. apply msg_too_long_tag. Qed.

Ltac other_message :=
  match goal with
  | E : ?x = msg_too_short _ |- _ =>
      symmetry in E; apply msg_too_short_only in E; [contradiction | ];
      first [ rewrite msg_too_long_tag | simpl ]; discriminate
  | E : ?x = msg_too_long _ |- _ =>
      symmetry in E; apply msg_too_long_only in E; [contradiction | ];
      first [ rewrite msg_too_short_tag | simpl ]; discriminate
  end.

Lemma too_short_flag_iff (unicode_table : rune -> rune) (pm : Manager) (s : string) :
  In (msg_too_short (Config.MinLength (config pm)))
     (PasswordValidation.Errors (Validate unicode_table pm s)) <->
  len s < Config.MinLength (config pm).
Proof.
  rewrite Validate_Errors.
  destruct (len s <? Config.MinLength (config pm)) eqn:Hmin.
  - split; [intros _; lia | intros _; left; reflexivity].
  - split; [| intros; lia].
    rewrite !in_app_iff.
    destruct (len s >? _), (Config.RequireUpper _ && _), (Config.RequireLower _ && _),
      (Config.RequireDigit _ && _), (Config.RequireSpecial _ && _);
      simpl; intros H; exfalso;
      repeat (destruct H as [H | H]; try contradiction; try other_message).
Qed.

Lemma too_long_flag_iff (unicode_table : rune -> rune) (pm : Manager) (s : string) :
  In (msg_too_long (Config.MaxLength (config pm)))
     (PasswordValidation.Errors (Validate unicode_table pm s)) <->
  len s > Config.MaxLength (config pm).
Proof.
  rewrite Validate_Errors.
  destruct (len s >? Config.MaxLength (config pm)) eqn:Hmax.
  - split; [intros _; lia |].
    intros _. rewrite !in_app_iff. right. left. left. reflexivity.
  - split; [| intros; lia].
    rewrite !in_app_iff.
    destruct (len s <? _), (Config.RequireUpper _ && _), (Config.RequireLower _ && _),
      (Config.RequireDigit _ && _), (Config.RequireSpecial _ && _);
      simpl; intros H; exfalso;
      repeat (destruct H as [H | H]; try contradiction; try other_message).
Qed.

Lemma decode_e_acute (l : list Z) :
  decode_from (map byte_val e_acute ++ l) 0 = 233 :: decode_from l 0.
Proof. reflexivity. Qed.

Lemma runes_copies_e_acute (n : nat) :
  runes (string_of (copies n e_acute)) = replicate n 233.
Proof.
  unfold runes, bytes_of, string_of.
  rewrite list_ascii_of_string_of_list_ascii.
  induction n as [| n IH]; [reflexivity |].
  change (copies (S n) e_acute) with (e_acute ++ copies n e_acute)%list.
  rewrite map_app, decode_e_acute, IH. reflexivity.
Qed.

Lemma len_string_of (b : list ascii) : len (string_of b) = Z.of_nat (List.length b).
Proof.
  unfold len, string_of. f_equal.
  induction b as [| c b IH]; simpl; [reflexivity | rewrite IH; reflexivity].
Qed.

Lemma length_copies_e_acute (n : nat) :
  List.length (copies n e_acute) = (2 * n)%nat.
Proof. induction n as [| n IH]; simpl; [reflexivity | rewrite IH; lia]. Qed.

Lemma short_in_characters_only (unicode_table : rune -> rune) (pm : Manager) :
  2 <= Config.MinLength (config pm) ->
  exists s,
    char_count s < Config.MinLength (config pm) /\
    Config.MinLength (config pm) <= len s /\
    ~ In (msg_too_short (Config.MinLength (config pm)))
         (PasswordValidation.Errors (Validate unicode_table pm s)).
Proof.
  intros Hmin.
  set (n := Z.to_nat ((Config.MinLength (config pm) + 1) / 2)).
  assert (Config.MinLength (config pm) <= 2 * Z.of_nat n) as Hbytes.
  { unfold n. rewrite Z2Nat.id by (apply Z.div_pos; lia).
    pose proof (Z.div_mod (Config.MinLength (config pm) + 1) 2 ltac:(lia)).
    pose proof (Z.mod_pos_bound (Config.MinLength (config pm) + 1) 2 ltac:(lia)).
    lia. }
  assert (Z.of_nat n < Config.MinLength (config pm)) as Hchars.
  { unfold n. rewrite Z2Nat.id by (apply Z.div_pos; lia).
    apply Z.div_lt_upper_bound; lia. }
  exists (string_of (copies n e_acute)).
  assert (len (string_of (copies n e_acute)) = 2 * Z.of_nat n) as Hlen.
  { rewrite len_string_of, length_copies_e_acute. lia. }
  split; [| split].
  - unfold char_count. rewrite runes_copies_e_acute, length_replicate. exact Hchars.
  - lia.
  - rewrite too_short_flag_iff. lia.
Qed.

(** C10. [Validate] compares the number of bytes of the password with
    [MinLength] and [MaxLength]: under every policy and for every
    string, the too-short violation is recorded exactly when the byte
    length is below [MinLength], the too-long one exactly when it is
    above [MaxLength]. So there is a string of fewer than [MinLength]
    characters, some of them multi-byte, with at least [MinLength]
    bytes, which is not flagged as too short: under the default policy,
    and under every policy whose [MinLength] is at least 2. *)
Theorem Validate_length_in_bytes (unicode_table : rune -> rune) :
  (forall pm s,
     (In (msg_too_short (Config.MinLength (config pm)))
         (PasswordValidation.Errors (Validate unicode_table pm s)) <->
      len s < Config.MinLength (config pm)) /\
     (In (msg_too_long (Config.MaxLength (config pm)))
         (PasswordValidation.Errors (Validate unicode_table pm s)) <->
      len s > Config.MaxLength (config pm))) /\
  (exists s,
     char_count s < Config.MinLength (config New) /\
     Config.MinLength (config New) <= len s /\
     ~ In (msg_too_short (Config.MinLength (config New)))
          (PasswordValidation.Errors (Validate unicode_table New s))) /\
  (forall pm,
     2 <= Config.MinLength (config pm) ->
     exists s,
       char_count s < Config.MinLength (config pm) /\
       Config.MinLength (config pm) <= len s /\
       ~ In (msg_too_short (Config.MinLength (config pm)))
            (PasswordValidation.Errors (Validate unicode_table pm s))).
Proof.
  split; [| split].
  - intros pm s. split; [apply too_short_flag_iff | apply too_long_flag_iff].
  - apply short_in_characters_only. simpl. lia.
  - intros pm. apply short_in_characters_only.
Qed.

(** C10 at a policy with a [MinLength] of 12: six copies of U+00E9 are
    6 characters and 12 bytes. *)
Lemma Validate_length_in_bytes_witness :
  exists s,
    char_count s < 12 /\ 12 <= len s /\
    ~ In (msg_too_short 12)
         (PasswordValidation.Errors
            (Validate Plain.table
               (NewWithConfig (Config.mk 12 128 true true true true 12)) s)).
Proof.
  apply (proj2 (proj2 (Validate_length_in_bytes Plain.table))
           (NewWithConfig (Config.mk 12 128 true true true true 12))).
  simpl. lia.
Defined.

(** ** bcrypt: the contract can be met *)

Lemma length_fold_into (l acc : list ascii) (i : nat) :
  List.length (Plain.fold_into acc i l) = List.length acc.
Proof.
  revert acc i. induction l as [| c l IH]; intros acc i; simpl; [reflexivity |].
  rewrite IH. apply length_alter.
Qed.

Lemma length_digest (password : list ascii) :
  List.length (Plain.digest password) = 31%nat.
Proof. unfold Plain.digest. rewrite length_fold_into. reflexivity. Qed.

Lemma Plain_generate_inv salt password cost h :
  Plain.GenerateFromPassword salt password cost = bcrypt.Ok h ->
  h = (Plain.header ++ Plain.digest password)%list.
Proof.
  unfold Plain.GenerateFromPassword.
  destruct (72 <? List.length password)%nat; [discriminate |].
  destruct (bcrypt.MaxCost <? _); [discriminate |].
  destruct salt; [| discriminate].
  intros E. injection E as <-. reflexivity.
Qed.

Lemma Plain_contract :
  bcrypt_contract Plain.GenerateFromPassword Plain.CompareHashAndPassword.
Proof.
  split.
  - intros salt password cost Hlen. unfold Plain.GenerateFromPassword.
    apply Nat.ltb_lt in Hlen. rewrite Hlen. reflexivity.
  - intros salt password cost Hlen Hcost. unfold Plain.GenerateFromPassword.
    assert ((72 <? List.length password)%nat = false) as -> by (apply Nat.ltb_ge; lia).
    unfold bcrypt.MaxCost, bcrypt.MinCost in *.
    assert ((cost <? 4) = false) as -> by lia.
    assert ((31 <? cost) = true) as -> by lia.
    reflexivity.
  - intros password cost. unfold Plain.GenerateFromPassword.
    destruct (72 <? List.length password)%nat; [eauto |].
    destruct (bcrypt.MaxCost <? _); eauto.
  - intros salt password cost _ Hlen Hcost. unfold Plain.GenerateFromPassword.
    assert ((72 <? List.length password)%nat = false) as -> by (apply Nat.ltb_ge; lia).
    unfold bcrypt.MaxCost, bcrypt.MinCost, bcrypt.DefaultCost in *.
    destruct (cost <? 4) eqn:E.
    + simpl. eauto.
    + assert ((31 <? cost) = false) as -> by lia. eauto.
  - intros salt password cost h E. apply Plain_generate_inv in E. subst h.
    rewrite length_app, length_digest. reflexivity.
  - intros salt password cost h E. apply Plain_generate_inv in E. subst h.
    unfold Plain.CompareHashAndPassword.
    assert ((List.length (Plain.header ++ Plain.digest password) <? 59)%nat = false) as ->.
    { apply Nat.ltb_ge. rewrite length_app, length_digest. simpl. lia. }
    rewrite bool_decide_eq_true_2; reflexivity.
  - intros h password Hlen. unfold Plain.CompareHashAndPassword.
    apply Nat.ltb_lt in Hlen. rewrite Hlen. reflexivity.
  - intros h password password' E. unfold Plain.CompareHashAndPassword, Plain.digest.
    rewrite E. reflexivity.
Qed.

Lemma Plain_digest_take (password : list ascii) :
  Plain.digest (take 72 password) = Plain.digest password.
Proof. unfold Plain.digest. rewrite take_take. reflexivity. Qed.

Lemma Plain_compare_contract :
  bcrypt_compare_contract Plain.GenerateFromPassword Plain.CompareHashAndPassword.
Proof.
  split. intros salt password cost h password' E Hne.
  pose proof E as Einv. apply Plain_generate_inv in Einv. subst h.
  unfold Plain.CompareHashAndPassword.
  assert ((List.length (Plain.header ++ Plain.digest password) <? 59)%nat = false) as ->.
  { apply Nat.ltb_ge. rewrite length_app, length_digest. simpl. lia. }
  rewrite drop_app_length' by reflexivity.
  destruct (bool_decide_reflect (Plain.digest password = Plain.digest password'))
    as [Heq | _]; [| reflexivity].
  exfalso. apply Hne. revert E. unfold Plain.GenerateFromPassword.
  assert ((72 <? List.length (take 72 password'))%nat = false) as ->.
  { apply Nat.ltb_ge. rewrite length_take. lia. }
  destruct (72 <? List.length password)%nat; [discriminate |].
  destruct (bcrypt.MaxCost <? _); [discriminate |].
  destruct salt; [| discriminate].
  intros _. rewrite Plain_digest_take, Heq. reflexivity.
Qed.

(** A comparison that accepts every password does not meet it, whatever
    bcrypt it is paired with that tells two passwords apart. *)
Lemma accept_all_not_compare_contract gen (salt : option (list ascii))
    (password password' h : list ascii) (cost : Z) :
  gen salt password cost = bcrypt.Ok h ->
  gen salt (take 72 password') cost <> bcrypt.Ok h ->
  ~ bcrypt_compare_contract gen (fun _ _ => None).
Proof.
  intros Hgen Hne contract.
  pose proof (compare_mismatch _ _ contract _ _ _ _ _ Hgen Hne) as H.
  discriminate H.
Qed.

(** ** Hashing and verification *)

Lemma bytes_of_string_of (b : list ascii) : bytes_of (string_of b) = b.
Proof. apply list_ascii_of_string_of_list_ascii. Qed.

Lemma string_of_bytes_of (s : string) : string_of (bytes_of s) = s.
Proof. apply string_of_list_ascii_of_string. Qed.

Lemma length_bytes_of (s : string) : Z.of_nat (List.length (bytes_of s)) = len s.
Proof. rewrite <- len_string_of, string_of_bytes_of. reflexivity. Qed.

Lemma eqb_empty_false (s : string) : 0 < len s -> String.eqb s "" = false.
Proof. destruct s; unfold len; simpl; [lia | reflexivity]. Qed.

Section HashVerify.

Variable unicode_table : rune -> rune.
Variable gen : option (list ascii) -> list ascii -> Z -> bcrypt.result (list ascii).
Variable cmp : list ascii -> list ascii -> option bcrypt.error.
Variable pm : Manager.

Lemma Hash_rejects (salt : option (list ascii)) (now : Z) (p : string) :
  PasswordValidation.Valid (Validate unicode_table pm p) = false ->
  Hash unicode_table gen pm salt now p =
  (None,
   Some (Errorf_w_s ErrPasswordTooWeak
           (strings_Join
              (PasswordValidation.Errors (Validate unicode_table pm p)) ", "))).
Proof. intros H. unfold Hash. rewrite H. reflexivity. Qed.

Lemma Hash_accepts (salt : option (list ascii)) (now : Z) (p : string) :
  PasswordValidation.Valid (Validate unicode_table pm p) = true ->
  Hash unicode_table gen pm salt now p =
  match gen salt (bytes_of p) (Config.BcryptCost (config pm)) with
  | bcrypt.Err err => (None, Some (Errorf_w_v ErrHashingFailed err))
  | bcrypt.Ok hashBytes =>
      (Some (HashedPassword.mk (string_of hashBytes) "bcrypt"
               (Config.BcryptCost (config pm)) now), None)
  end.
Proof. intros H. unfold Hash. rewrite H. reflexivity. Qed.

Lemma Hash_success_inv (salt : option (list ascii)) (now : Z) (p : string)
    (hp : HashedPassword.t) (e : option error) :
  Hash unicode_table gen pm salt now p = (Some hp, e) ->
  PasswordValidation.Valid (Validate unicode_table pm p) = true /\
  e = None /\
  exists h, gen salt (bytes_of p) (Config.BcryptCost (config pm)) = bcrypt.Ok h /\
            HashedPassword.Hash hp = string_of h.
Proof.
  unfold Hash.
  destruct (PasswordValidation.Valid (Validate unicode_table pm p));
    simpl; [| discriminate].
  destruct (gen salt (bytes_of p) _) as [h | err] eqn:E; [| discriminate].
  intros H. injection H as <- <-. eauto.
Qed.

Lemma Verify_nonempty (p h : string) :
  h <> "" ->
  Verify cmp pm p h =
  match cmp (bytes_of h) (bytes_of p) with
  | Some bcrypt.ErrMismatchedHashAndPassword => Some (Sentinel ErrVerificationFailed)
  | Some err => Some (Errorf_w_v ErrVerificationFailed err)
  | None => None
  end.
Proof.
  intros H. unfold Verify.
  destruct (String.eqb h "") eqn:E.
  - apply String.eqb_eq in E. contradiction.
  - destruct (cmp _ _) as [[] |]; reflexivity.
Qed.

Lemma Verify_empty (p : string) :
  Verify cmp pm p "" = Some (Sentinel ErrInvalidHash).
Proof. reflexivity. Qed.

Hypothesis contract : bcrypt_contract gen cmp.

Lemma generated_hash_nonempty salt password cost h :
  gen salt password cost = bcrypt.Ok h -> string_of h <> "".
Proof.
  intros E Hs. apply (gen_length _ _ contract) in E.
  apply (f_equal bytes_of) in Hs. rewrite bytes_of_string_of in Hs.
  subst h. discriminate E.
Qed.

Lemma Verify_short_hash (p h : string) :
  h <> "" -> len h < 59 ->
  Verify cmp pm p h = Some (Errorf_w_v ErrVerificationFailed bcrypt.ErrHashTooShort).
Proof.
  intros Hne Hlen. rewrite Verify_nonempty by exact Hne.
  rewrite (compare_short _ _ contract); [reflexivity |].
  rewrite <- length_bytes_of in Hlen. lia.
Qed.

Lemma Verify_generated (salt : option (list ascii)) (now : Z) (p p2 : string)
    (hp : HashedPassword.t) :
  Hash unicode_table gen pm salt now p = (Some hp, None) ->
  take 72 (bytes_of p2) = take 72 (bytes_of p) ->
  Verify cmp pm p2 (HashedPassword.Hash hp) = None.
Proof.
  intros HH Hpre.
  apply Hash_success_inv in HH as (_ & _ & h & Hgen & Hhash).
  rewrite Hhash.
  rewrite Verify_nonempty by (eapply generated_hash_nonempty; exact Hgen).
  rewrite bytes_of_string_of.
  rewrite (compare_72 _ _ contract h _ _ Hpre).
  rewrite (gen_compare _ _ contract _ _ _ _ Hgen). reflexivity.
Qed.

Lemma Hash_too_long (salt : option (list ascii)) (now : Z) (p : string) :
  PasswordValidation.Valid (Validate unicode_table pm p) = true ->
  72 < len p ->
  Hash unicode_table gen pm salt now p =
  (None, Some (Errorf_w_v ErrHashingFailed bcrypt.ErrPasswordTooLong)).
Proof.
  intros Hv Hlen. rewrite Hash_accepts by exact Hv.
  rewrite (gen_too_long _ _ contract); [reflexivity |].
  rewrite <- length_bytes_of in Hlen. lia.
Qed.

End HashVerify.

Section HashVerifyClaims.

Variable unicode_table : rune -> rune.
Variable gen : option (list ascii) -> list ascii -> Z -> bcrypt.result (list ascii).
Variable cmp : list ascii -> list ascii -> option bcrypt.error.
Variable pm : Manager.

(** C1, amended. For a plaintext [p] that passes [Validate]: whenever
    [Hash(p)] returns a [HashedPassword], [Verify(p, h)] on its hash
    string returns nil; and [Hash(p)] does return one when [p] has at
    most 72 bytes, the configured cost is at most 31 and bcrypt could
    draw its salt. *)
Theorem Hash_then_Verify (p : string) :
  bcrypt_contract gen cmp ->
  PasswordValidation.Valid (Validate unicode_table pm p) = true ->
  (forall salt now hp,
     Hash unicode_table gen pm salt now p = (Some hp, None) ->
     Verify cmp pm p (HashedPassword.Hash hp) = None) /\
  (forall salt now,
     len p <= 72 -> Config.BcryptCost (config pm) <= 31 ->
     List.length salt = 16%nat ->
     exists hp,
       Hash unicode_table gen pm (Some salt) now p = (Some hp, None) /\
       Verify cmp pm p (HashedPassword.Hash hp) = None).
Proof.
  intros contract Hvalid.
  assert (forall salt now hp,
     Hash unicode_table gen pm salt now p = (Some hp, None) ->
     Verify cmp pm p (HashedPassword.Hash hp) = None) as Hround.
  { intros salt now hp HH.
    apply (Verify_generated unicode_table gen cmp pm contract salt now p p hp HH).
    reflexivity. }
  split; [exact Hround |].
  intros salt now Hlen Hcost Hsalt.
  destruct (gen_ok _ _ contract salt (bytes_of p) (Config.BcryptCost (config pm)))
    as [h Hgen]; [exact Hsalt | | exact Hcost |].
  { rewrite <- length_bytes_of in Hlen. lia. }
  pose proof (Hash_accepts unicode_table gen pm (Some salt) now p Hvalid) as HH.
  rewrite Hgen in HH.
  eexists. split; [exact HH |].
  apply (Hround _ _ _ HH).
Qed.

(** C3. When [Validate(p).Valid] is false, [Hash(p)] returns no
    [HashedPassword] and the policy-violation error
    ([ErrPasswordTooWeak]) wrapped with the violation messages joined
    by a comma; there is at least one message; and the outcome is the
    same whatever bcrypt, its salt or the clock would have given: no
    hash is computed. *)
Theorem Hash_rejects_invalid (salt : option (list ascii)) (now : Z) (p : string) :
  PasswordValidation.Valid (Validate unicode_table pm p) = false ->
  Hash unicode_table gen pm salt now p =
    (None,
     Some (Errorf_w_s ErrPasswordTooWeak
             (strings_Join
                (PasswordValidation.Errors (Validate unicode_table pm p)) ", "))) /\
  PasswordValidation.Errors (Validate unicode_table pm p) <> [] /\
  (forall gen' salt' now',
     Hash unicode_table gen' pm salt' now' p = Hash unicode_table gen pm salt now p).
Proof.
  intros Hinvalid. split; [| split].
  - apply Hash_rejects, Hinvalid.
  - apply Validate_invalid_has_errors, Hinvalid.
  - intros gen' salt' now'. rewrite !Hash_rejects by exact Hinvalid. reflexivity.
Qed.

(** C4, amended. [Verify] returns [ErrInvalidHash] exactly when the
    hash string is empty. For a non-empty hash it returns the
    [ErrVerificationFailed] value itself exactly when bcrypt reports a
    mismatch; a non-empty hash of fewer than 59 bytes, which bcrypt
    cannot read, yields an error that is neither that value nor
    [ErrInvalidHash]. *)
Theorem Verify_error_taxonomy (p h : string) :
  bcrypt_contract gen cmp ->
  (Verify cmp pm p h = Some (Sentinel ErrInvalidHash) <-> h = "") /\
  (h <> "" ->
   (Verify cmp pm p h = Some (Sentinel ErrVerificationFailed) <->
    cmp (bytes_of h) (bytes_of p) = Some bcrypt.ErrMismatchedHashAndPassword)) /\
  (h <> "" -> len h < 59 ->
   exists err,
     Verify cmp pm p h = Some err /\
     err <> Sentinel ErrVerificationFailed /\
     err <> Sentinel ErrInvalidHash /\
     errors_Is err ErrInvalidHash = false).
Proof.
  intros contract. split; [| split].
  - split.
    + intros HV. destruct (String.eqb_spec h "") as [E | E]; [exact E |].
      rewrite Verify_nonempty in HV by exact E.
      destruct (cmp _ _) as [[] |]; discriminate HV.
    + intros ->. reflexivity.
  - intros Hne. rewrite Verify_nonempty by exact Hne.
    destruct (cmp _ _) as [[] |]; split; intros; congruence.
  - intros Hne Hlen.
    rewrite (Verify_short_hash gen cmp pm contract p h Hne Hlen).
    eexists. split; [reflexivity |].
    repeat split; discriminate.
Qed.

(** C5, amended. For a plaintext [p] that [Hash] has hashed and any
    plaintext [p2], [Verify(p2, Hash(p).Hash)] returns nil or the
    [ErrVerificationFailed] value, never another error: nil exactly
    when bcrypt gives the first 72 bytes of [p2] the hash it gave [p]
    under the same salt and cost, and [ErrVerificationFailed] for every
    other [p2]. Every [p2] with the same first 72 bytes as [p] is
    accepted, which some [p2 != p] are. *)
Theorem Verify_other_password (salt : option (list ascii)) (now : Z)
    (p p2 : string) (hp : HashedPassword.t) :
  bcrypt_contract gen cmp ->
  bcrypt_compare_contract gen cmp ->
  Hash unicode_table gen pm salt now p = (Some hp, None) ->
  (Verify cmp pm p2 (HashedPassword.Hash hp) = None <->
   same_bcrypt_hash gen salt (Config.BcryptCost (config pm)) p2 p) /\
  (~ same_bcrypt_hash gen salt (Config.BcryptCost (config pm)) p2 p ->
   Verify cmp pm p2 (HashedPassword.Hash hp) = Some (Sentinel ErrVerificationFailed)) /\
  (Verify cmp pm p2 (HashedPassword.Hash hp) = None \/
   Verify cmp pm p2 (HashedPassword.Hash hp) = Some (Sentinel ErrVerificationFailed)) /\
  (take 72 (bytes_of p2) = take 72 (bytes_of p) ->
   Verify cmp pm p2 (HashedPassword.Hash hp) = None).
Proof.
  intros contract compare HH.
  pose proof HH as Hinv.
  apply Hash_success_inv in Hinv as (_ & _ & h & Hgen & Hhash).
  assert (same_bcrypt_hash gen salt (Config.BcryptCost (config pm)) p2 p ->
          Verify cmp pm p2 (HashedPassword.Hash hp) = None) as Hsame.
  { unfold same_bcrypt_hash. rewrite Hgen. intros Hgen2.
    rewrite Hhash, Verify_nonempty
      by (eapply generated_hash_nonempty; eassumption).
    rewrite bytes_of_string_of.
    rewrite (compare_72 _ _ contract h (bytes_of p2) (take 72 (bytes_of p2)))
      by (rewrite take_take; reflexivity).
    rewrite (gen_compare _ _ contract _ _ _ _ Hgen2). reflexivity. }
  assert (~ same_bcrypt_hash gen salt (Config.BcryptCost (config pm)) p2 p ->
          Verify cmp pm p2 (HashedPassword.Hash hp) =
            Some (Sentinel ErrVerificationFailed)) as Hother.
  { unfold same_bcrypt_hash. rewrite Hgen. intros Hne.
    rewrite Hhash, Verify_nonempty
      by (eapply generated_hash_nonempty; eassumption).
    rewrite bytes_of_string_of.
    rewrite (compare_mismatch _ _ compare _ _ _ _ _ Hgen Hne). reflexivity. }
  assert (same_bcrypt_hash gen salt (Config.BcryptCost (config pm)) p2 p \/
          ~ same_bcrypt_hash gen salt (Config.BcryptCost (config pm)) p2 p) as Hdec.
  { unfold same_bcrypt_hash. rewrite Hgen.
    destruct (gen salt (take 72 (bytes_of p2)) _) as [h2 | e].
    - destruct (decide (h2 = h)) as [-> | Hne]; [left; reflexivity |].
      right. congruence.
    - right. discriminate. }
  split; [| split; [| split]].
  - split; [| exact Hsame].
    intros HV. destruct Hdec as [Hs | Hn]; [exact Hs |].
    rewrite (Hother Hn) in HV. discriminate HV.
  - exact Hother.
  - destruct Hdec as [Hs | Hn]; [left; apply Hsame, Hs | right; apply Hother, Hn].
  - intros Hpre.
    apply (Verify_generated unicode_table gen cmp pm contract salt now p p2 hp HH Hpre).
Qed.

End HashVerifyClaims.

(** What the cost [UpdateConfig] stored leads to: [Hash] fails on a
    valid plaintext, bcrypt refusing a cost above 31. *)
Lemma Hash_with_unclamped_cost gen cmp (salt : option (list ascii)) (now : Z) :
  bcrypt_contract gen cmp ->
  Hash Plain.table gen (UpdateConfig New (Config.mk 8 128 true true true false 32))
    salt now "Password1" =
  (None, Some (Errorf_w_v ErrHashingFailed (bcrypt.InvalidCostError 32))).
Proof.
  intros contract. rewrite Hash_accepts by (vm_compute; reflexivity).
  rewrite (gen_bad_cost _ _ contract); [reflexivity | simpl; lia | reflexivity].
Qed.

Lemma password73_valid :
  PasswordValidation.Valid (Validate Plain.table New password73) = true.
Proof. vm_compute. reflexivity. Qed.

Lemma password72_valid :
  PasswordValidation.Valid (Validate Plain.table New password72) = true.
Proof. vm_compute. reflexivity. Qed.

Lemma password73_prefix :
  take 72 (bytes_of password73) = take 72 (bytes_of password72).
Proof. vm_compute. reflexivity. Qed.

(** C1 at the default policy, the plaintext ["Password1"] and a salt of
    sixteen zero bytes. *)
Lemma Hash_then_Verify_witness :
  exists hp,
    Hash Plain.table Plain.GenerateFromPassword New (Some salt16) 0 "Password1"
      = (Some hp, None) /\
    Verify Plain.CompareHashAndPassword New "Password1" (HashedPassword.Hash hp) = None.
Proof.
  apply (Hash_then_Verify Plain.table Plain.GenerateFromPassword
           Plain.CompareHashAndPassword New "Password1" Plain_contract).
  - vm_compute. reflexivity.
  - vm_compute. discriminate.
  - vm_compute. discriminate.
  - reflexivity.
Defined.

(** C1 as stated fails: the 73-byte [password73] passes [Validate] under
    the default policy, and [Hash] returns [ErrHashingFailed] for it
    (bcrypt refuses more than 72 bytes); under no bcrypt that meets the
    contract does [Hash] return a [HashedPassword] for it, nor for the
    valid ["Password1"] when bcrypt cannot draw its salt. *)
Lemma Hash_fails_on_valid_password :
  PasswordValidation.Valid (Validate Plain.table New password73) = true /\
  Hash Plain.table Plain.GenerateFromPassword New (Some salt16) 0 password73 =
    (None, Some (Errorf_w_v ErrHashingFailed bcrypt.ErrPasswordTooLong)) /\
  ~ (exists gen cmp salt now hp e,
       bcrypt_contract gen cmp /\
       Hash Plain.table gen New salt now password73 = (Some hp, e)) /\
  PasswordValidation.Valid (Validate Plain.table New "Password1") = true /\
  ~ (exists gen cmp now hp e,
       bcrypt_contract gen cmp /\
       Hash Plain.table gen New None now "Password1" = (Some hp, e)).
Proof.
  split; [exact password73_valid | split; [| split; [| split]]].
  - vm_compute. reflexivity.
  - intros (gen & cmp & salt & now & hp & e & contract & HH).
    rewrite (Hash_too_long Plain.table gen cmp New contract salt now password73
               password73_valid) in HH.
    + discriminate HH.
    + vm_compute. reflexivity.
  - vm_compute. reflexivity.
  - intros (gen & cmp & now & hp & e & contract & HH).
    apply Hash_success_inv in HH as (_ & _ & h & Hgen & _).
    destruct (gen_no_salt _ _ contract (bytes_of "Password1")
                (Config.BcryptCost (config New))) as [err Herr].
    rewrite Herr in Hgen. discriminate Hgen.
Qed.

(** C3 at the default policy and the plaintext ["password"]. *)
Lemma Hash_rejects_invalid_witness :
  Hash Plain.table Plain.GenerateFromPassword New (Some salt16) 0 "password" =
    (None,
     Some (Errorf_w_s ErrPasswordTooWeak
             ("Password must contain at least one uppercase letter, " +:+
              "Password must contain at least one digit"))).
Proof.
  apply (Hash_rejects_invalid Plain.table Plain.GenerateFromPassword New
           (Some salt16) 0 "password").
  vm_compute. reflexivity.
Defined.

(** C4 at the default policy and the unreadable hash ["not-a-hash"]. *)
Lemma Verify_error_taxonomy_witness :
  exists err,
    Verify Plain.CompareHashAndPassword New "Password1" "not-a-hash" = Some err /\
    err <> Sentinel ErrVerificationFailed /\
    err <> Sentinel ErrInvalidHash /\
    errors_Is err ErrInvalidHash = false.
Proof.
  apply (Verify_error_taxonomy Plain.GenerateFromPassword Plain.CompareHashAndPassword
           New "Password1" "not-a-hash" Plain_contract).
  - discriminate.
  - vm_compute. reflexivity.
Defined.

(** C4 as stated fails: for the unreadable hash ["not-a-hash"] [Verify]
    returns [ErrVerificationFailed] wrapped with bcrypt's reason, an
    error for which [errors.Is(err, ErrVerificationFailed)] holds; under
    no bcrypt that meets the contract does it return [ErrInvalidHash]. *)
Lemma Verify_unreadable_hash_not_InvalidHash :
  Verify Plain.CompareHashAndPassword New "Password1" "not-a-hash" =
    Some (Errorf_w_v ErrVerificationFailed bcrypt.ErrHashTooShort) /\
  errors_Is (Errorf_w_v ErrVerificationFailed bcrypt.ErrHashTooShort)
    ErrVerificationFailed = true /\
  VerifyAndCheck Plain.CompareHashAndPassword New "Password1" "not-a-hash" =
    (false, None) /\
  ~ (exists gen cmp,
       bcrypt_contract gen cmp /\
       Verify cmp New "Password1" "not-a-hash" = Some (Sentinel ErrInvalidHash)).
Proof.
  repeat split.
  intros (gen & cmp & contract & HV).
  rewrite (Verify_short_hash gen cmp New contract "Password1" "not-a-hash") in HV.
  - discriminate HV.
  - discriminate.
  - vm_compute. reflexivity.
Qed.

(** C5 at the default policy with ["Password1"] hashed: ["Password2"]
    is refused and ["Password1"] itself is accepted. *)
Lemma Verify_other_password_witness :
  Verify Plain.CompareHashAndPassword New "Password2"
    (string_of (Plain.header ++ Plain.digest (bytes_of "Password1"))) =
    Some (Sentinel ErrVerificationFailed) /\
  Verify Plain.CompareHashAndPassword New "Password1"
    (string_of (Plain.header ++ Plain.digest (bytes_of "Password1"))) = None.
Proof.
  split.
  - apply (Verify_other_password Plain.table Plain.GenerateFromPassword
             Plain.CompareHashAndPassword New (Some salt16) 0 "Password1" "Password2"
             (HashedPassword.mk
                (string_of (Plain.header ++ Plain.digest (bytes_of "Password1")))
                "bcrypt" 12 0)
             Plain_contract Plain_compare_contract).
    + vm_compute. reflexivity.
    + vm_compute. discriminate.
  - apply (Verify_other_password Plain.table Plain.GenerateFromPassword
             Plain.CompareHashAndPassword New (Some salt16) 0 "Password1" "Password1"
             (HashedPassword.mk
                (string_of (Plain.header ++ Plain.digest (bytes_of "Password1")))
                "bcrypt" 12 0)
             Plain_contract Plain_compare_contract).
    + vm_compute. reflexivity.
    + reflexivity.
Defined.

(** C5 as stated fails: [password73] differs from [password72], which
    passes [Validate] under the default policy, and yet verifies against
    its hash; under no bcrypt that meets the contract does [Verify]
    return [ErrVerificationFailed] here. *)
Lemma Verify_accepts_other_password :
  password73 <> password72 /\
  PasswordValidation.Valid (Validate Plain.table New password72) = true /\
  (exists hp,
     Hash Plain.table Plain.GenerateFromPassword New (Some salt16) 0 password72
       = (Some hp, None) /\
     Verify Plain.CompareHashAndPassword New password73 (HashedPassword.Hash hp) = None) /\
  ~ (exists gen cmp salt now hp,
       bcrypt_contract gen cmp /\
       Hash Plain.table gen New salt now password72 = (Some hp, None) /\
       Verify cmp New password73 (HashedPassword.Hash hp) =
         Some (Sentinel ErrVerificationFailed)).
Proof.
  split; [| split; [| split]].
  - intros E. apply (f_equal String.length) in E. vm_compute in E. discriminate E.
  - exact password72_valid.
  - eexists. split.
    + vm_compute. reflexivity.
    + vm_compute. reflexivity.
  - intros (gen & cmp & salt & now & hp & contract & HH & HV).
    rewrite (Verify_generated Plain.table gen cmp New contract salt now
               password72 password73 hp HH password73_prefix) in HV.
    discriminate HV.
Qed.

(** ** Random generation *)

Lemma byte_val_bounds (c : ascii) : 0 <= byte_val c < 256.
Proof.
  unfold byte_val. pose proof (N_ascii_bounded c). lia.
Qed.

Lemma bind_Some {A B} (m : Rand A) (f : A -> Rand B) (k k' : nat) (a : A) :
  m k = Some (a, k') -> bind m f k = f a k'.
Proof. intros E. unfold bind. rewrite E. reflexivity. Qed.

Lemma get_in_bytes (s : string) (n : nat) :
  (n < String.length s)%nat ->
  exists c, String.get n s = Some c /\ c ∈ bytes_of s.
Proof.
  revert n. induction s as [| a s IH]; intros n Hn; simpl in Hn; [lia |].
  destruct n as [| n]; simpl.
  - exists a. split; [reflexivity | left].
  - destruct (IH n) as (c & Hc & Hin); [lia |].
    exists c. split; [exact Hc | right; exact Hin].
Qed.

Lemma str_index_ok (s : string) (i : Z) :
  0 <= i < len s ->
  exists c, str_index s i = Some c /\ c ∈ bytes_of s.
Proof.
  intros Hi. unfold str_index.
  assert ((i <? 0) = false) as -> by lia.
  apply get_in_bytes. unfold len in Hi. lia.
Qed.

Section GenerationFacts.

Variable rand_Read : nat -> Draw.
Hypothesis clock : clock_after_epoch rand_Read.

Lemma randomInt_ok (max : Z) (k : nat) :
  0 < max ->
  exists r, randomInt rand_Read max k = Some (r, S k) /\ 0 <= r < max.
Proof.
  intros Hmax. unfold randomInt.
  assert ((max <=? 0) = false) as -> by lia.
  pose proof (clock k) as Hk.
  destruct (rand_Read k) as [b0 b1 b2 b3 | unixNano].
  - pose proof (byte_val_bounds b0). pose proof (byte_val_bounds b1).
    pose proof (byte_val_bounds b2). pose proof (byte_val_bounds b3).
    set (n := Z.lor _ _).
    assert (0 <= n) as Hn.
    { unfold n. rewrite !Z.lor_nonneg, !Z.shiftl_nonneg. lia. }
    assert ((n <? 0) = false) as -> by lia.
    eexists. split; [reflexivity |]. apply Z.rem_bound_pos; lia.
  - eexists. split; [reflexivity |]. apply Z.rem_bound_pos; lia.
Qed.

Lemma add_class_ok (enabled : bool) (class : string)
    (acc : string * list ascii) (k : nat) :
  0 < len class ->
  exists c,
    c ∈ bytes_of class /\
    add_class rand_Read enabled class acc k =
      Some (if enabled then (fst acc +:+ class, (snd acc ++ [c])%list) else acc,
            if enabled then S k else k).
Proof.
  intros Hlen.
  destruct (randomInt_ok (len class) k Hlen) as (r & Hr & Hrange).
  destruct (str_index_ok class r Hrange) as (c & Hc & Hin).
  exists c. split; [exact Hin |].
  unfold add_class. destruct acc as [charset required].
  destruct enabled; [| reflexivity].
  rewrite (bind_Some _ _ _ _ _ Hr). rewrite Hc. reflexivity.
Qed.

Lemma swap_ok (pw : list ascii) (i : nat) (j : Z) (k : nat) :
  (i < List.length pw)%nat -> 0 <= j < Z.of_nat (List.length pw) ->
  exists pw',
    swap pw i j k = Some (pw', k) /\
    List.length pw' = List.length pw /\
    forall c, c ∈ pw -> c ∈ pw'.
Proof.
  intros Hi Hj. unfold swap.
  assert ((j <? 0) = false) as -> by lia.
  assert (Z.to_nat j < List.length pw)%nat as Hj' by lia.
  destruct (lookup_lt_is_Some_2 pw i Hi) as [a Ha].
  destruct (lookup_lt_is_Some_2 pw (Z.to_nat j) Hj') as [b Hb].
  set (jn := Z.to_nat j) in *.
  exists (<[jn := a]> (<[i := b]> pw)).
  split; [| split].
  - unfold bind, must, ret. rewrite Ha, Hb. reflexivity.
  - rewrite !length_insert. reflexivity.
  - intros c Hc. apply list_elem_of_lookup in Hc as [idx Hidx].
    apply list_elem_of_lookup.
    destruct (decide (idx = jn)) as [-> | Hne].
    + destruct (decide (i = jn)) as [-> | Hij].
      * exists jn. rewrite list_lookup_insert_eq by (rewrite length_insert; lia).
        congruence.
      * exists i. rewrite list_lookup_insert_ne by congruence.
        rewrite list_lookup_insert_eq by lia. congruence.
    + destruct (decide (idx = i)) as [-> | Hni].
      * exists jn. rewrite list_lookup_insert_eq by (rewrite length_insert; lia).
        congruence.
      * exists idx. rewrite !list_lookup_insert_ne by congruence. exact Hidx.
Qed.

Lemma shuffle_ok (idxs : list nat) (pw : list ascii) (k : nat) :
  Forall (fun i => (i < List.length pw)%nat) idxs ->
  exists pw' k',
    for_each idxs
      (fun password i =>
         j <- randomInt rand_Read (Z.of_nat (List.length password)) ;;
         swap password i j)
      pw k = Some (pw', k') /\
    List.length pw' = List.length pw /\
    forall c, c ∈ pw -> c ∈ pw'.
Proof.
  revert pw k. induction idxs as [| i idxs IH]; intros pw k Hall.
  - exists pw, k. repeat split; auto.
  - apply Forall_cons in Hall as [Hi Hall].
    destruct (randomInt_ok (Z.of_nat (List.length pw)) k ltac:(lia))
      as (j & Hj & Hrange).
    destruct (swap_ok pw i j (S k) Hi Hrange) as (pw1 & Hswap & Hlen1 & Hin1).
    destruct (IH pw1 (S k)) as (pw' & k' & Hrun & Hlen & Hin).
    { rewrite Hlen1. exact Hall. }
    exists pw', k'. split; [| split].
    + simpl. rewrite (bind_Some _ _ _ _ _
        (eq_trans (bind_Some _ _ _ _ _ Hj) Hswap)). exact Hrun.
    + congruence.
    + auto.
Qed.

Lemma fill_ok (charset : string) (n a : nat) (pw : list ascii) (k : nat) :
  0 < len charset ->
  exists pw' k',
    for_each (seq a n)
      (fun password i =>
         j <- randomInt rand_Read (len charset) ;;
         c <- must (str_index charset j) ;;
         ret (<[i := c]> password))
      pw k = Some (pw', k') /\
    List.length pw' = List.length pw /\
    forall j, (j < a)%nat -> pw' !! j = pw !! j.
Proof.
  intros Hlen. revert a pw k. induction n as [| n IH]; intros a pw k.
  - exists pw, k. repeat split; auto.
  - destruct (randomInt_ok (len charset) k Hlen) as (r & Hr & Hrange).
    destruct (str_index_ok charset r Hrange) as (c & Hc & _).
    destruct (IH (S a) (<[a := c]> pw) (S k)) as (pw' & k' & Hrun & Hlen' & Hsame).
    exists pw', k'. split; [| split].
    + simpl. unfold bind at 1. unfold bind at 1. rewrite Hr.
      unfold bind at 1. unfold must. rewrite Hc. unfold ret at 1. exact Hrun.
    + rewrite Hlen', length_insert. reflexivity.
    + intros j Hj. rewrite Hsame by lia.
      apply list_lookup_insert_ne. lia.
Qed.


End GenerationFacts.

Lemma place_required (L : Z) (required pw : list ascii) :
  let pw' :=
    foldl (fun password '(i, char) =>
             if Z.of_nat i <? L then <[i := char]> password else password)
          pw (imap (fun i char => (i, char)) required) in
  List.length pw' = List.length pw /\
  forall j, (j < List.length required)%nat -> Z.of_nat j < L ->
            (j < List.length pw)%nat -> pw' !! j = required !! j.
Proof.
  induction required as [| x required IH] using rev_ind; simpl.
  - split; [reflexivity | intros; simpl in *; lia].
  - destruct IH as [IHlen IHget].
    rewrite imap_app, foldl_app. simpl.
    rewrite Nat.add_0_r.
    set (Q := foldl _ pw _) in *.
    split.
    + destruct (_ <? L); [rewrite length_insert |]; exact IHlen.
    + intros j Hj HjL Hjpw. rewrite length_app in Hj. simpl in Hj.
      destruct (decide (j = List.length required)) as [-> | Hne].
      * assert ((Z.of_nat (List.length required) <? L) = true) as -> by lia.
        rewrite list_lookup_insert_eq by lia.
        rewrite lookup_app_r by lia. rewrite Nat.sub_diag. reflexivity.
      * assert (j < List.length required)%nat as Hlt by lia.
        rewrite lookup_app_l by lia.
        rewrite <- (IHget j Hlt HjL Hjpw).
        destruct (_ <? L); [| reflexivity].
        apply list_lookup_insert_ne. lia.
Qed.

(** *** ASCII bytes are runes of their own *)

Lemma accept_lo (b0 : Z) (sz : nat) (lo hi : Z) :
  accept b0 = Some (sz, lo, hi) -> 128 <= lo.
Proof.
  unfold accept.
  repeat match goal with
         | |- context [if ?c then _ else _] => destruct c
         end; intros E; inversion E; lia.
Qed.

Lemma decodeRune_cases (b0 : Z) (rest : list Z) (r : rune) (w : nat) :
  decodeRune b0 rest = (r, w) ->
  (b0 < 128 /\ r = b0 /\ w = 1%nat) \/
  (128 <= b0 /\ Forall (fun y => 128 <= y) (take (pred w) rest)).
Proof.
  unfold decodeRune, RuneSelf.
  destruct (b0 <? 128) eqn:Hb0.
  - intros E. inversion E. left. lia.
  - intros E. right. split; [lia |].
    destruct (accept b0) as [[[sz lo] hi] |] eqn:Hacc.
    2: { inversion E. constructor. }
    apply accept_lo in Hacc.
    destruct rest as [| b1 rest1]; [inversion E; constructor |].
    destruct ((lo <=? b1) && (b1 <=? hi)) eqn:H1; simpl in E;
      [| inversion E; constructor].
    assert (128 <= b1) as Hb1 by lia.
    destruct (sz =? 2)%nat; [inversion E; repeat constructor; exact Hb1 |].
    destruct rest1 as [| b2 rest2]; [inversion E; constructor |].
    unfold is_cont in E.
    destruct ((128 <=? b2) && (b2 <=? 191)) eqn:H2; simpl in E;
      [| inversion E; constructor].
    assert (128 <= b2) as Hb2 by lia.
    destruct (sz =? 3)%nat; [inversion E; repeat constructor; assumption |].
    destruct rest2 as [| b3 rest3]; [inversion E; constructor |].
    destruct ((128 <=? b3) && (b3 <=? 191)) eqn:H3; simpl in E;
      [| inversion E; constructor].
    assert (128 <= b3) as Hb3 by lia.
    inversion E. repeat constructor; assumption.
Qed.

Lemma decode_from_ascii (bs : list Z) (skip : nat) (x : Z) :
  In x bs -> x < 128 ->
  Forall (fun y => 128 <= y) (take skip bs) ->
  In x (decode_from bs skip).
Proof.
  revert skip. induction bs as [| b0 rest IH]; intros skip Hin Hx Hskip;
    [contradiction |].
  destruct skip as [| k]; simpl.
  - destruct (decodeRune b0 rest) as [r w] eqn:Hd.
    apply decodeRune_cases in Hd as [(Hb0 & -> & ->) | (Hb0 & Hcont)].
    + destruct Hin as [-> | Hin]; [left; reflexivity | right].
      apply IH; [exact Hin | exact Hx | constructor].
    + destruct Hin as [-> | Hin]; [lia | right].
      apply IH; assumption.
  - simpl in Hskip. apply Forall_cons in Hskip as [Hb0 Hskip].
    destruct Hin as [-> | Hin]; [lia |].
    apply IH; assumption.
Qed.

Lemma ascii_byte_rune (s : string) (c : ascii) :
  c ∈ bytes_of s -> byte_val c < 128 -> In (byte_val c) (runes s).
Proof.
  intros Hin Hc. unfold runes.
  apply decode_from_ascii; [| exact Hc | constructor].
  apply in_map, list_elem_of_In, Hin.
Qed.

(** *** The character classes of the generator *)

Lemma class_range (class : string) (lo hi : rune) (c : ascii) :
  forallb (fun c => (lo <=? byte_val c) && (byte_val c <=? hi) && (byte_val c <? 128))
    (bytes_of class) = true ->
  c ∈ bytes_of class ->
  lo <= byte_val c <= hi /\ byte_val c < 128.
Proof.
  intros Hall Hin. rewrite forallb_forall in Hall.
  apply list_elem_of_In, Hall in Hin. lia.
Qed.

Lemma lowercase_range (c : ascii) :
  c ∈ bytes_of lowercase -> rn "a" <= byte_val c <= rn "z" /\ byte_val c < 128.
Proof. apply class_range. reflexivity. Qed.

Lemma uppercase_range (c : ascii) :
  c ∈ bytes_of uppercase -> rn "A" <= byte_val c <= rn "Z" /\ byte_val c < 128.
Proof. apply class_range. reflexivity. Qed.

Lemma digits_range (c : ascii) :
  c ∈ bytes_of digits -> rn "0" <= byte_val c <= rn "9" /\ byte_val c < 128.
Proof. apply class_range. reflexivity. Qed.

Lemma special_in_specialChars (c : ascii) :
  c ∈ bytes_of special ->
  In (byte_val c) (runes specialChars) /\ byte_val c < 128.
Proof.
  intros Hin.
  assert (forallb (fun c => existsb (Z.eqb (byte_val c)) (runes specialChars)
                            && (byte_val c <? 128))
            (bytes_of special) = true) as Hall by reflexivity.
  rewrite forallb_forall in Hall.
  apply list_elem_of_In, Hall, andb_true_iff in Hin as [Hex Hlt].
  apply existsb_exists in Hex as (r & Hr & Heq).
  apply Z.eqb_eq in Heq. rewrite Heq. split; [exact Hr | lia].
Qed.

Lemma has_class_from_byte (lo hi : rune) (pw : list ascii) (c : ascii) :
  c ∈ pw -> lo <= byte_val c <= hi /\ byte_val c < 128 ->
  has_rune_in lo hi (string_of pw).
Proof.
  intros Hin [Hrange Hlt]. exists (byte_val c). split; [| exact Hrange].
  apply ascii_byte_rune; [| exact Hlt].
  rewrite bytes_of_string_of. exact Hin.
Qed.

Lemma has_special_from_byte (pw : list ascii) (c : ascii) :
  c ∈ pw -> In (byte_val c) (runes specialChars) /\ byte_val c < 128 ->
  has_special (string_of pw).
Proof.
  intros Hin [Hsp Hlt]. exists (byte_val c). split; [| exact Hsp].
  apply ascii_byte_rune; [| exact Hlt].
  rewrite bytes_of_string_of. exact Hin.
Qed.


Section GenerationClaims.

Variable free_memory : Z.
Variable rand_Read : nat -> Draw.
Hypothesis clock : clock_after_epoch rand_Read.

Lemma build_charset_ok (cfg : Config.t) (k : nat) :
  match build_charset rand_Read cfg k with
  | Some ((charset, required), _) =>
      Z.of_nat (List.length required) = required_count cfg /\
      (Config.RequireLower cfg = true ->
       exists c, c ∈ required /\ c ∈ bytes_of lowercase) /\
      (Config.RequireUpper cfg = true ->
       exists c, c ∈ required /\ c ∈ bytes_of uppercase) /\
      (Config.RequireDigit cfg = true ->
       exists c, c ∈ required /\ c ∈ bytes_of digits) /\
      (Config.RequireSpecial cfg = true ->
       exists c, c ∈ required /\ c ∈ bytes_of special)
  | None => False
  end.
Proof.
  unfold build_charset, required_count.
  destruct (add_class_ok rand_Read clock (Config.RequireLower cfg) lowercase
              ("", []) k ltac:(reflexivity)) as (c1 & Hc1 & E1).
  rewrite (bind_Some _ _ _ _ _ E1).
  match type of E1 with _ = Some (?a, ?k') =>
    destruct (add_class_ok rand_Read clock (Config.RequireUpper cfg) uppercase
                a k' ltac:(reflexivity)) as (c2 & Hc2 & E2)
  end.
  rewrite (bind_Some _ _ _ _ _ E2).
  match type of E2 with _ = Some (?a, ?k') =>
    destruct (add_class_ok rand_Read clock (Config.RequireDigit cfg) digits
                a k' ltac:(reflexivity)) as (c3 & Hc3 & E3)
  end.
  rewrite (bind_Some _ _ _ _ _ E3).
  match type of E3 with _ = Some (?a, ?k') =>
    destruct (add_class_ok rand_Read clock (Config.RequireSpecial cfg) special
                a k' ltac:(reflexivity)) as (c4 & Hc4 & E4)
  end.
  rewrite E4. clear E1 E2 E3 E4.
  destruct (Config.RequireLower cfg), (Config.RequireUpper cfg),
    (Config.RequireDigit cfg), (Config.RequireSpecial cfg); simpl;
    repeat split; try discriminate; intros _;
    first [ exists c1; split; [apply list_elem_of_In; simpl; tauto | exact Hc1]
          | exists c2; split; [apply list_elem_of_In; simpl; tauto | exact Hc2]
          | exists c3; split; [apply list_elem_of_In; simpl; tauto | exact Hc3]
          | exists c4; split; [apply list_elem_of_In; simpl; tauto | exact Hc4] ].
Qed.

Lemma generate_password_ok (L : Z) (charset : string) (required : list ascii)
    (k : nat) :
  0 < len charset -> Z.of_nat (List.length required) <= L -> L <= maxAlloc ->
  L <= free_memory ->
  exists pw k',
    generate_password free_memory rand_Read L charset required k = Some (pw, k') /\
    Z.of_nat (List.length pw) = L /\
    forall c, c ∈ required -> c ∈ pw.
Proof.
  intros Hcs HL Hmax Hmem. unfold generate_password.
  assert ((L <? 0) || (maxAlloc <? L) = false) as -> by lia.
  assert ((free_memory <? L) = false) as -> by lia.
  pose proof (place_required L required (replicate (Z.to_nat L) zero)) as Hplace.
  simpl in Hplace. set (P0 := foldl _ _ _) in *.
  destruct Hplace as [Hlen0 Hget0]. rewrite length_replicate in Hlen0, Hget0.
  destruct (fill_ok rand_Read clock charset
              (Z.to_nat L - List.length required) (List.length required) P0 k Hcs)
    as (P1 & k1 & Hfill & Hlen1 & Hget1).
  rewrite (bind_Some _ _ _ _ _ Hfill).
  destruct (shuffle_ok rand_Read clock (seq 0 (List.length P1)) P1 k1)
    as (P2 & k2 & Hshuffle & Hlen2 & Hin2).
  { apply Forall_forall. intros i Hi. apply elem_of_seq in Hi. lia. }
  exists P2, k2. split; [exact Hshuffle | split; [lia |]].
  intros c Hc. apply Hin2.
  apply list_elem_of_lookup in Hc as [j Hj].
  pose proof (lookup_lt_Some _ _ _ Hj) as Hjlt.
  apply (list_elem_of_lookup_2 _ j).
  rewrite Hget1 by exact Hjlt. rewrite Hget0 by lia. exact Hj.
Qed.

End GenerationClaims.

(** C2, amended. Under a policy whose [MinLength] is at most [MaxLength],
    for every [n] whose clamped value is at least the number of required
    classes the policy enables and at most [maxAlloc], the largest
    length [make] accepts, with the memory for the buffer and for the
    string there (under the default policy: every [n], with 256 bytes),
    and with a clock that reads no time before 1970 when [randomInt]
    falls back on it, [GenerateRandomPassword(n)] returns, for every
    outcome of the random reads, a nil error and a string whose length
    is [n] clamped into [MinLength, MaxLength] and for which
    [Validate(...).Valid] is true. *)
Theorem GenerateRandomPassword_valid (unicode_table : rune -> rune)
    (free_memory : Z) (rand_Read : nat -> Draw) (pm : Manager) (n : Z) (k : nat) :
  clock_after_epoch rand_Read ->
  Config.MinLength (config pm) <= Config.MaxLength (config pm) ->
  required_count (config pm) <=
    clamp (Config.MinLength (config pm)) (Config.MaxLength (config pm)) n ->
  clamp (Config.MinLength (config pm)) (Config.MaxLength (config pm)) n <= maxAlloc ->
  2 * clamp (Config.MinLength (config pm)) (Config.MaxLength (config pm)) n
    <= free_memory ->
  exists s k',
    GenerateRandomPassword free_memory rand_Read pm n k = Some ((s, None), k') /\
    len s = clamp (Config.MinLength (config pm)) (Config.MaxLength (config pm)) n /\
    PasswordValidation.Valid (Validate unicode_table pm s) = true.
Proof.
  intros clock Hminmax Hreq Halloc Hmem. unfold GenerateRandomPassword.
  set (cfg := config pm) in *.
  set (l1 := if n <? Config.MinLength cfg then Config.MinLength cfg else n).
  set (L := if l1 >? Config.MaxLength cfg then Config.MaxLength cfg else l1).
  assert (L = clamp (Config.MinLength cfg) (Config.MaxLength cfg) n) as HL.
  { unfold L, l1, clamp.
    destruct (n <? Config.MinLength cfg) eqn:E1;
      destruct (_ >? Config.MaxLength cfg) eqn:E2; lia. }
  assert (Config.MinLength cfg <= L <= Config.MaxLength cfg) as Hbounds.
  { rewrite HL. unfold clamp. lia. }
  pose proof (build_charset_ok rand_Read clock cfg k) as Hbuild.
  destruct (build_charset rand_Read cfg k) as [[[charset required] k1] |] eqn:Eb;
    [| contradiction].
  destruct Hbuild as (Hcount & Hlower & Hupper & Hdigit & Hspecial).
  rewrite (bind_Some _ _ _ _ _ Eb).
  set (charset' := if String.eqb charset "" then _ else charset).
  assert (0 < len charset') as Hcs.
  { unfold charset'. destruct (String.eqb_spec charset "") as [-> | Hne].
    - reflexivity.
    - destruct charset; [contradiction | unfold len; simpl; lia]. }
  destruct (generate_password_ok free_memory rand_Read clock L charset' required k1
              Hcs ltac:(lia) ltac:(lia) ltac:(lia)) as (pw & k2 & Hgen & Hlen & Hin).
  rewrite (bind_Some _ _ _ _ _ Hgen).
  assert ((free_memory - L <? Z.of_nat (List.length pw)) = false) as -> by lia.
  exists (string_of pw), k2.
  assert (len (string_of pw) = L) as Hlens by (rewrite len_string_of; exact Hlen).
  split; [reflexivity | split; [congruence |]].
  rewrite Validate_Valid. fold cfg. rewrite Hlens.
  assert ((L <? Config.MinLength cfg) = false) as -> by lia.
  assert ((L >? Config.MaxLength cfg) = false) as -> by lia.
  simpl.
  rewrite !andb_true_iff. repeat split.
  - apply (required_class_ok _ _ _ (containsUpper_spec _)). intros Hen.
    destruct (Hupper Hen) as (c & Hc & Hclass).
    apply (has_class_from_byte _ _ pw c (Hin c Hc)), uppercase_range, Hclass.
  - apply (required_class_ok _ _ _ (containsLower_spec _)). intros Hen.
    destruct (Hlower Hen) as (c & Hc & Hclass).
    apply (has_class_from_byte _ _ pw c (Hin c Hc)), lowercase_range, Hclass.
  - apply (required_class_ok _ _ _ (containsDigit_spec _)). intros Hen.
    destruct (Hdigit Hen) as (c & Hc & Hclass).
    apply (has_class_from_byte _ _ pw c (Hin c Hc)), digits_range, Hclass.
  - apply (required_class_ok _ _ _ (containsSpecial_spec _)). intros Hen.
    destruct (Hspecial Hen) as (c & Hc & Hclass).
    apply (has_special_from_byte pw c (Hin c Hc)), special_in_specialChars, Hclass.
Qed.

Lemma default_policy_fits (n : Z) :
  required_count (config New) <=
  clamp (Config.MinLength (config New)) (Config.MaxLength (config New)) n.
Proof. change (3 <= Z.min 128 (Z.max 8 n)). lia. Qed.

Lemma default_policy_allocates (n : Z) :
  clamp (Config.MinLength (config New)) (Config.MaxLength (config New)) n <= maxAlloc /\
  2 * clamp (Config.MinLength (config New)) (Config.MaxLength (config New)) n <= 256.
Proof.
  change (Z.min 128 (Z.max 8 n) <= 2 ^ 48 /\ 2 * Z.min 128 (Z.max 8 n) <= 256).
  lia.
Qed.

(** C2 at the default policy and a requested length of 16, with a
    source whose reads all fail. *)
Lemma GenerateRandomPassword_valid_witness :
  exists s k',
    GenerateRandomPassword ample_memory failing_source New 16 0%nat =
      Some ((s, None), k') /\
    len s = 16 /\
    PasswordValidation.Valid (Validate Plain.table New s) = true.
Proof.
  apply (GenerateRandomPassword_valid Plain.table ample_memory failing_source New
           16 0%nat).
  - intros k. simpl. lia.
  - vm_compute. discriminate.
  - vm_compute. discriminate.
  - vm_compute. discriminate.
  - vm_compute. discriminate.
Defined.

(** Beyond [maxAlloc] there is no password: under the default policy
    with a [MaxLength] of [1 << 62], which [NewWithConfig] accepts,
    [GenerateRandomPassword(1 << 62)] panics in [make]. *)
Lemma GenerateRandomPassword_panics_beyond_maxAlloc (free_memory : Z) :
  Config.MaxLength (config huge_policy) = 2 ^ 62 /\
  Config.MinLength (config huge_policy) <= Config.MaxLength (config huge_policy) /\
  required_count (config huge_policy) <= clamp 8 (2 ^ 62) (2 ^ 62) /\
  GenerateRandomPassword free_memory healthy_source huge_policy (2 ^ 62) 0%nat = None.
Proof. vm_compute. repeat split; discriminate. Qed.

(** C2 as stated fails: under [short_policy], which requires a
    lowercase letter, an uppercase letter and a digit and has
    [MinLength] 2, [GenerateRandomPassword(2)] returns the two
    characters ["dK"]: the third required character finds no place
    ([if i < length]), and [Validate] rejects the result. *)
Lemma GenerateRandomPassword_drops_required :
  GenerateRandomPassword ample_memory healthy_source short_policy 2 0%nat =
    Some (("dK", None), 5%nat) /\
  len "dK" = clamp 2 128 2 /\
  PasswordValidation.Valid (Validate Plain.table short_policy "dK") = false.
Proof. vm_compute. repeat split. Qed.

(** ** The fall-back of [randomInt] *)

Lemma lor_disjoint (a b k : Z) :
  0 <= k -> 0 <= b < 2 ^ k -> Z.lor (a * 2 ^ k) b = a * 2 ^ k + b.
Proof.
  intros Hk Hb.
  assert (Z.land (a * 2 ^ k) b = 0) as Hland.
  { apply Z.bits_inj'. intros n Hn. rewrite Z.land_spec, Z.bits_0.
    destruct (Z.ltb_spec n k) as [Hlt | Hge].
    - rewrite Z.mul_pow2_bits_low by lia. reflexivity.
    - destruct (Z.eq_dec b 0) as [-> | Hnz].
      + rewrite Z.bits_0. apply andb_false_r.
      + rewrite (Z.bits_above_log2 b n); [apply andb_false_r | lia |].
        apply Z.log2_lt_pow2; [lia |].
        apply Z.lt_le_trans with (2 ^ k); [lia |].
        apply Z.pow_le_mono_r; lia. }
  rewrite <- Z.lxor_lor by exact Hland.
  symmetry. apply Z.add_nocarry_lxor. exact Hland.
Qed.

Lemma byte_val_byte_of (x : Z) : 0 <= x < 256 -> byte_val (byte_of x) = x.
Proof.
  intros Hx. unfold byte_val, byte_of.
  rewrite N_ascii_embedding by lia. lia.
Qed.

Lemma assemble_draw_of_value (r : Z) :
  0 <= r < 2 ^ 32 ->
  match draw_of_value r with
  | ReadOk b0 b1 b2 b3 =>
      Z.lor (Z.lor (Z.lor (Z.shiftl (byte_val b0) 24) (Z.shiftl (byte_val b1) 16))
                   (Z.shiftl (byte_val b2) 8))
            (byte_val b3) = r
  | ReadFailed _ => False
  end.
Proof.
  intros Hr. unfold draw_of_value.
  set (q1 := r / 256). set (q2 := q1 / 256). set (q3 := q2 / 256).
  pose proof (Z.div_mod r 256 ltac:(lia)) as E1.
  pose proof (Z.div_mod q1 256 ltac:(lia)) as E2.
  pose proof (Z.div_mod q2 256 ltac:(lia)) as E3.
  pose proof (Z.mod_pos_bound r 256 ltac:(lia)) as B1.
  pose proof (Z.mod_pos_bound q1 256 ltac:(lia)) as B2.
  pose proof (Z.mod_pos_bound q2 256 ltac:(lia)) as B3.
  fold q1 in E1. fold q2 in E2. fold q3 in E3.
  change (2 ^ 32) with 4294967296 in Hr.
  assert (0 <= q3 < 256) as B0 by lia.
  rewrite !byte_val_byte_of by lia.
  rewrite !Z.shiftl_mul_pow2 by lia.
  rewrite (lor_disjoint q3 (q2 mod 256 * 2 ^ 16) 24) by lia.
  replace (q3 * 2 ^ 24 + q2 mod 256 * 2 ^ 16) with (q2 * 2 ^ 16) by lia.
  rewrite (lor_disjoint q2 (q1 mod 256 * 2 ^ 8) 16) by lia.
  replace (q2 * 2 ^ 16 + q1 mod 256 * 2 ^ 8) with (q1 * 2 ^ 8) by lia.
  rewrite (lor_disjoint q1 (r mod 256) 8) by lia.
  lia.
Qed.

Lemma randomInt_draw_of_value (src src' : nat -> Draw) (max unixNano : Z) (k : nat) :
  0 < max <= 2 ^ 32 -> 0 <= unixNano ->
  src k = ReadFailed unixNano ->
  src' k = draw_of_value (Z.rem unixNano max) ->
  randomInt src' max k = randomInt src max k.
Proof.
  intros Hmax Hclock Hsrc Hsrc'.
  pose proof (Z.rem_bound_pos unixNano max Hclock ltac:(lia)) as Hr.
  pose proof (assemble_draw_of_value (Z.rem unixNano max) ltac:(lia)) as Hn.
  unfold randomInt. rewrite Hsrc, Hsrc'.
  assert ((max <=? 0) = false) as -> by lia.
  destruct (draw_of_value (Z.rem unixNano max)) as [b0 b1 b2 b3 |];
    [| contradiction].
  rewrite Hn.
  assert ((Z.rem unixNano max <? 0) = false) as -> by lia.
  rewrite (Z.rem_small (Z.rem unixNano max) max) by lia.
  reflexivity.
Qed.

Lemma repaired_healthy (src : nat -> Draw) (k : nat) (maxes : list Z) :
  healthy (repaired src k maxes).
Proof.
  intros i. unfold repaired.
  destruct (src i) as [b0 b1 b2 b3 | t]; [eauto |].
  destruct (maxes !! (i - k)%nat); unfold draw_of_value; eauto.
Qed.

Lemma repaired_agree (src : nat -> Draw) (k : nat) (maxes : list Z) :
  clock_after_epoch src ->
  Forall (fun max => max <= 2 ^ 32) maxes ->
  agree_on src (repaired src k maxes) k maxes.
Proof.
  intros clock Hall j max Hj.
  destruct (Z.leb_spec max 0) as [Hle | Hpos].
  { unfold randomInt. assert ((max <=? 0) = true) as -> by lia. reflexivity. }
  pose proof (clock (k + j)%nat) as Hk.
  destruct (src (k + j)%nat) as [b0 b1 b2 b3 | t] eqn:Hsrc.
  - unfold randomInt, repaired. rewrite Hsrc. reflexivity.
  - apply (randomInt_draw_of_value src _ max t);
      [| exact Hk | exact Hsrc |].
    + split; [exact Hpos |].
      rewrite Forall_forall in Hall. apply Hall.
      apply (list_elem_of_lookup_2 _ j). exact Hj.
    + unfold repaired. rewrite Hsrc.
      replace (k + j - k)%nat with j by lia. rewrite Hj. reflexivity.
Qed.

Lemma agree_on_app (src src' : nat -> Draw) (k : nat) (ms1 ms2 : list Z) :
  agree_on src src' k (ms1 ++ ms2) ->
  agree_on src src' k ms1 /\ agree_on src src' (k + List.length ms1) ms2.
Proof.
  intros H. split.
  - intros j max Hj. apply H. rewrite lookup_app_l; [exact Hj |].
    apply lookup_lt_Some in Hj. exact Hj.
  - intros j max Hj.
    replace (k + List.length ms1 + j)%nat with (k + (List.length ms1 + j))%nat by lia.
    apply H. rewrite lookup_app_r by lia.
    replace (List.length ms1 + j - List.length ms1)%nat with j by lia. exact Hj.
Qed.

Lemma randomInt_consumes (src : nat -> Draw) (max r : Z) (k k' : nat) :
  0 < max -> randomInt src max k = Some (r, k') -> k' = S k.
Proof.
  intros Hmax. unfold randomInt.
  assert ((max <=? 0) = false) as -> by lia.
  destruct (src k); intros E; inversion E; reflexivity.
Qed.

Lemma bind_agree {A B} (m m' : Rand A) (f f' : A -> Rand B) (k : nat) :
  m' k = m k ->
  (forall a k', m k = Some (a, k') -> f' a k' = f a k') ->
  bind m' f' k = bind m f k.
Proof.
  intros Hm Hf. unfold bind. rewrite Hm.
  destruct (m k) as [[a k'] |]; [apply Hf; reflexivity | reflexivity].
Qed.

Lemma bind_inv {A B} (m : Rand A) (f : A -> Rand B) (k k2 : nat) (b : B) :
  bind m f k = Some (b, k2) ->
  exists a k1, m k = Some (a, k1) /\ f a k1 = Some (b, k2).
Proof.
  unfold bind. destruct (m k) as [[a k1] |]; [eauto | discriminate].
Qed.

Lemma agree_on_shift (src src' : nat -> Draw) (k : nat) (ms1 ms2 : list Z) (k' : nat) :
  agree_on src src' k (ms1 ++ ms2) ->
  k' = (k + List.length ms1)%nat ->
  agree_on src src' k' ms2.
Proof. intros H ->. apply agree_on_app in H. tauto. Qed.

Lemma agree_on_head (src src' : nat -> Draw) (k : nat) (max : Z) (rest : list Z) :
  agree_on src src' k (max :: rest) ->
  randomInt src' max k = randomInt src max k.
Proof.
  intros H. pose proof (H 0%nat max eq_refl) as E.
  rewrite Nat.add_0_r in E. exact E.
Qed.

Section Agreement.

Variable free_memory : Z.
Variables src src' : nat -> Draw.

Lemma add_class_result (enabled : bool) (class : string) (acc a : string * list ascii)
    (k k' : nat) :
  0 < len class ->
  add_class src enabled class acc k = Some (a, k') ->
  k' = (k + List.length (if enabled then [len class] else []))%nat /\
  fst a = (if enabled then fst acc +:+ class else fst acc) /\
  List.length (snd a) =
    (List.length (snd acc) + List.length (if enabled then [len class] else []))%nat.
Proof.
  intros Hlen. unfold add_class. destruct acc as [charset required].
  destruct enabled.
  - intros E.
    apply bind_inv in E as (r & k1 & Er & E).
    apply randomInt_consumes in Er; [| exact Hlen]. subst k1.
    apply bind_inv in E as (c & k2 & Ec & E).
    unfold must in Ec. destruct (str_index class r); [| discriminate].
    unfold ret in Ec, E. inversion Ec; inversion E; subst; simpl.
    rewrite length_app. simpl. repeat split; lia.
  - unfold ret. intros E. inversion E; subst; simpl. repeat split; lia.
Qed.

Lemma add_class_agree (enabled : bool) (class : string) (acc : string * list ascii)
    (k : nat) (rest : list Z) :
  agree_on src src' k ((if enabled then [len class] else []) ++ rest) ->
  add_class src' enabled class acc k = add_class src enabled class acc k.
Proof.
  intros H. unfold add_class. destruct acc as [charset required].
  destruct enabled; [| reflexivity].
  apply bind_agree; [| reflexivity].
  apply (agree_on_head _ _ _ _ _ H).
Qed.

Lemma build_charset_result (cfg : Config.t) (k k' : nat) (charset : string)
    (required : list ascii) :
  build_charset src cfg k = Some ((charset, required), k') ->
  k' = (k + List.length (class_draws cfg))%nat /\
  (if String.eqb charset "" then lowercase +:+ uppercase +:+ digits else charset)
    = charset_of cfg /\
  List.length required = List.length (class_draws cfg).
Proof.
  unfold build_charset. intros E.
  apply bind_inv in E as (a1 & k1 & E1 & E).
  apply bind_inv in E as (a2 & k2 & E2 & E).
  apply bind_inv in E as (a3 & k3 & E3 & E4).
  apply add_class_result in E1 as (K1 & F1 & L1); [| reflexivity].
  apply add_class_result in E2 as (K2 & F2 & L2); [| reflexivity].
  apply add_class_result in E3 as (K3 & F3 & L3); [| reflexivity].
  apply add_class_result in E4 as (K4 & F4 & L4); [| reflexivity].
  simpl in F4, L4, F1, L1. unfold class_draws. rewrite !length_app.
  split; [lia | split; [| lia]].
  unfold charset_of. rewrite F4, F3, F2, F1.
  destruct (Config.RequireLower cfg), (Config.RequireUpper cfg),
    (Config.RequireDigit cfg), (Config.RequireSpecial cfg); reflexivity.
Qed.

Lemma build_charset_agree (cfg : Config.t) (k : nat) :
  agree_on src src' k (class_draws cfg) ->
  build_charset src' cfg k = build_charset src cfg k.
Proof.
  unfold class_draws, build_charset. intros H.
  apply bind_agree; [apply (add_class_agree _ _ _ _ _ H) |].
  intros a1 k1 E1.
  apply add_class_result in E1 as (K1 & _); [| reflexivity].
  pose proof (agree_on_shift _ _ _ _ _ _ H K1) as H1.
  apply bind_agree; [apply (add_class_agree _ _ _ _ _ H1) |].
  intros a2 k2 E2.
  apply add_class_result in E2 as (K2 & _); [| reflexivity].
  pose proof (agree_on_shift _ _ _ _ _ _ H1 K2) as H2.
  apply bind_agree; [apply (add_class_agree _ _ _ _ _ H2) |].
  intros a3 k3 E3.
  apply add_class_result in E3 as (K3 & _); [| reflexivity].
  pose proof (agree_on_shift _ _ _ _ _ _ H2 K3) as H3.
  rewrite <- (app_nil_r (if Config.RequireSpecial cfg then _ else _)) in H3.
  apply (add_class_agree _ _ _ _ _ H3).
Qed.

Lemma fill_result (charset : string) (n a : nat) (pw pw' : list ascii) (k k' : nat) :
  0 < len charset ->
  for_each (seq a n)
    (fun password i =>
       j <- randomInt src (len charset) ;;
       c <- must (str_index charset j) ;;
       ret (<[i := c]> password)) pw k = Some (pw', k') ->
  k' = (k + n)%nat /\ List.length pw' = List.length pw.
Proof.
  intros Hlen. revert a pw k. induction n as [| n IH]; intros a pw k; simpl.
  - unfold ret. intros E. inversion E; subst. split; [lia | reflexivity].
  - intros E.
    apply bind_inv in E as (pw1 & k1 & E1 & E).
    apply bind_inv in E1 as (r & k2 & Er & E1).
    apply randomInt_consumes in Er; [| exact Hlen]. subst k2.
    apply bind_inv in E1 as (c & k3 & Ec & E1).
    unfold must in Ec. destruct (str_index charset r); [| discriminate].
    unfold ret in Ec, E1. inversion Ec; inversion E1; subst.
    apply IH in E as [-> ->]. rewrite length_insert. split; [lia | reflexivity].
Qed.

Lemma fill_agree (charset : string) (n a : nat) (pw : list ascii) (k : nat) :
  0 < len charset ->
  agree_on src src' k (replicate n (len charset)) ->
  for_each (seq a n)
    (fun password i =>
       j <- randomInt src' (len charset) ;;
       c <- must (str_index charset j) ;;
       ret (<[i := c]> password)) pw k =
  for_each (seq a n)
    (fun password i =>
       j <- randomInt src (len charset) ;;
       c <- must (str_index charset j) ;;
       ret (<[i := c]> password)) pw k.
Proof.
  intros Hlen. revert a pw k. induction n as [| n IH]; intros a pw k H;
    [reflexivity |].
  simpl. apply bind_agree.
  - apply bind_agree; [| reflexivity]. apply (agree_on_head _ _ _ _ _ H).
  - intros pw1 k1 E1. apply IH.
    apply bind_inv in E1 as (r & k2 & Er & E1).
    apply randomInt_consumes in Er; [| exact Hlen]. subst k2.
    apply bind_inv in E1 as (c & k3 & Ec & E1).
    unfold must in Ec. destruct (str_index charset r); [| discriminate].
    unfold ret in Ec, E1. inversion Ec; inversion E1; subst.
    apply (agree_on_shift _ _ k [len charset] _ _ H). simpl. lia.
Qed.

Lemma swap_result (pw pw' : list ascii) (i : nat) (j : Z) (k k' : nat) :
  swap pw i j k = Some (pw', k') -> List.length pw' = List.length pw /\ k' = k.
Proof.
  unfold swap. destruct (j <? 0); [discriminate |].
  unfold bind, must, ret.
  destruct (pw !! i); [| discriminate].
  destruct (pw !! Z.to_nat j); [| discriminate].
  intros E. inversion E; subst. rewrite !length_insert. split; reflexivity.
Qed.

Lemma shuffle_agree (idxs : list nat) (pw : list ascii) (k : nat) :
  (0 < List.length pw)%nat ->
  agree_on src src' k
    (replicate (List.length idxs) (Z.of_nat (List.length pw))) ->
  for_each idxs
    (fun password i =>
       j <- randomInt src' (Z.of_nat (List.length password)) ;;
       swap password i j) pw k =
  for_each idxs
    (fun password i =>
       j <- randomInt src (Z.of_nat (List.length password)) ;;
       swap password i j) pw k.
Proof.
  revert pw k. induction idxs as [| i idxs IH]; intros pw k Hpos H;
    [reflexivity |].
  simpl. apply bind_agree.
  - apply bind_agree; [| reflexivity]. apply (agree_on_head _ _ _ _ _ H).
  - intros pw1 k1 E1.
    apply bind_inv in E1 as (r & k2 & Er & Es).
    apply randomInt_consumes in Er; [| lia]. subst k2.
    apply swap_result in Es as [Hl ->].
    apply IH; [lia |]. rewrite Hl.
    apply (agree_on_shift _ _ k [Z.of_nat (List.length pw)] _ _ H). simpl. lia.
Qed.

Lemma generate_password_agree (L : Z) (charset : string) (required : list ascii)
    (k : nat) :
  0 < len charset ->
  agree_on src src' k
    (replicate (Z.to_nat L - List.length required) (len charset) ++
     replicate (Z.to_nat L) L) ->
  generate_password free_memory src' L charset required k =
  generate_password free_memory src L charset required k.
Proof.
  intros Hlen H. unfold generate_password.
  destruct ((L <? 0) || (maxAlloc <? L)) eqn:HL; [reflexivity |].
  apply orb_false_iff in HL as [HL _].
  destruct (free_memory <? L); [reflexivity |].
  pose proof (place_required L required (replicate (Z.to_nat L) zero)) as Hplace.
  simpl in Hplace. set (P0 := foldl _ _ _) in *.
  destruct Hplace as [Hlen0 _]. rewrite length_replicate in Hlen0.
  pose proof H as H'. apply agree_on_app in H' as [Hfill _].
  apply bind_agree; [apply fill_agree; assumption |].
  intros P1 k1 E1.
  apply fill_result in E1 as [-> Hl1]; [| exact Hlen].
  destruct (List.length P1) as [| m] eqn:Hm; [reflexivity |].
  rewrite <- Hm. apply shuffle_agree; [lia |].
  rewrite length_seq.
  replace (List.length P1) with (Z.to_nat L) by lia.
  rewrite Z2Nat.id by lia.
  apply (agree_on_shift _ _ _ _ _ _ H). rewrite length_replicate. reflexivity.
Qed.

End Agreement.

Lemma draws_of_bounded (cfg : Config.t) (n : Z) :
  Config.MaxLength cfg <= 2 ^ 32 ->
  Forall (fun max => max <= 2 ^ 32) (draws_of cfg n).
Proof.
  intros Hmax. unfold draws_of.
  assert (clamped_length cfg n <= 2 ^ 32) as HL.
  { unfold clamped_length. destruct (_ >? Config.MaxLength cfg) eqn:E; lia. }
  rewrite !Forall_app. split; [| split].
  - unfold class_draws.
    destruct (Config.RequireLower cfg), (Config.RequireUpper cfg),
      (Config.RequireDigit cfg), (Config.RequireSpecial cfg);
      repeat constructor; vm_compute; discriminate.
  - apply Forall_replicate. unfold charset_of.
    destruct (Config.RequireLower cfg), (Config.RequireUpper cfg),
      (Config.RequireDigit cfg), (Config.RequireSpecial cfg);
      vm_compute; discriminate.
  - apply Forall_replicate. exact HL.
Qed.

Lemma charset_of_nonempty (cfg : Config.t) : 0 < len (charset_of cfg).
Proof.
  unfold charset_of.
  destruct (Config.RequireLower cfg), (Config.RequireUpper cfg),
    (Config.RequireDigit cfg), (Config.RequireSpecial cfg); reflexivity.
Qed.

Lemma GenerateRandomPassword_repaired (free_memory : Z) (rand_Read : nat -> Draw)
    (pm : Manager) (n : Z) (k : nat) :
  clock_after_epoch rand_Read ->
  Config.MaxLength (config pm) <= 2 ^ 32 ->
  GenerateRandomPassword free_memory
    (repaired rand_Read k (draws_of (config pm) n)) pm n k =
  GenerateRandomPassword free_memory rand_Read pm n k.
Proof.
  intros clock Hmax.
  pose proof (repaired_agree rand_Read k _ clock (draws_of_bounded _ n Hmax)) as H.
  set (src' := repaired _ _ _) in *.
  unfold GenerateRandomPassword. fold (clamped_length (config pm) n).
  unfold draws_of in H.
  pose proof H as H'. apply agree_on_app in H' as [Hclasses _].
  apply bind_agree; [apply build_charset_agree; exact Hclasses |].
  intros [charset required] k1 Eb.
  apply build_charset_result in Eb as (K1 & Hcs & Hreq).
  rewrite Hcs.
  apply bind_agree; [| reflexivity].
  apply generate_password_agree; [apply charset_of_nonempty |].
  rewrite Hreq. apply (agree_on_shift _ _ _ _ _ _ H K1).
Qed.

Lemma GenerateRandomPassword_error_nil (free_memory : Z) (rand_Read : nat -> Draw)
    (pm : Manager) (n : Z) (k k' : nat) (s : string) (e : option error) :
  GenerateRandomPassword free_memory rand_Read pm n k = Some ((s, e), k') -> e = None.
Proof.
  unfold GenerateRandomPassword, bind.
  destruct (build_charset rand_Read (config pm) k) as [[[charset required] k1] |];
    [| discriminate].
  destruct (generate_password _ _ _ _ _ _) as [[pw k2] |]; [| discriminate].
  destruct (_ <? _); [discriminate |].
  unfold ret. intros E. inversion E. reflexivity.
Qed.

(** C9, amended. The fall-back is silent. [GenerateRandomPassword]
    returns a nil error whatever the random reads did; and, for a
    [MaxLength] of at most 2^32 and a clock that reads no time before
    1970, a run in which reads of the secure source fail returns exactly
    what a run returns in which every read succeeds (the failed reads
    replaced by successful ones). Nothing a caller receives tells the
    two apart: the fall-back is neither logged nor flagged. This holds
    whatever memory the machine has. *)
Theorem GenerateRandomPassword_fallback_is_silent (free_memory : Z)
    (rand_Read : nat -> Draw) (pm : Manager) (n : Z) (k : nat) :
  clock_after_epoch rand_Read ->
  Config.MaxLength (config pm) <= 2 ^ 32 ->
  (forall s e k',
     GenerateRandomPassword free_memory rand_Read pm n k = Some ((s, e), k') -> e = None) /\
  (exists rand_Read',
     healthy rand_Read' /\
     GenerateRandomPassword free_memory rand_Read' pm n k =
     GenerateRandomPassword free_memory rand_Read pm n k).
Proof.
  intros clock Hmax. split.
  - intros s e k'. apply GenerateRandomPassword_error_nil.
  - exists (repaired rand_Read k (draws_of (config pm) n)).
    split; [apply repaired_healthy |].
    apply GenerateRandomPassword_repaired; assumption.
Qed.

(** C9 at the default policy, a requested length of 12 and a source
    whose reads all fail. *)
Lemma GenerateRandomPassword_fallback_is_silent_witness :
  exists rand_Read',
    healthy rand_Read' /\
    GenerateRandomPassword ample_memory rand_Read' New 12 0%nat =
    GenerateRandomPassword ample_memory failing_source New 12 0%nat.
Proof.
  apply (GenerateRandomPassword_fallback_is_silent ample_memory failing_source New
           12 0%nat).
  - intros k. simpl. lia.
  - vm_compute. discriminate.
Defined.

(** C9 as stated fails: under the default policy a run in which every
    read of the secure source fails returns exactly what a run in which
    every read succeeds returns, the same password and a nil error;
    nothing a caller receives marks the degraded run. *)
Lemma fallback_run_equals_healthy_run :
  (forall k, exists unixNano, failing_source k = ReadFailed unixNano) /\
  healthy healthy_source /\
  GenerateRandomPassword ample_memory failing_source New 12 0%nat =
    Some (("dK7yFMT07els", None), 24%nat) /\
  GenerateRandomPassword ample_memory healthy_source New 12 0%nat =
    GenerateRandomPassword ample_memory failing_source New 12 0%nat.
Proof.
  split; [| split; [| split]].
  - intros k. eexists. reflexivity.
  - intros k. do 4 eexists. reflexivity.
  - vm_compute. reflexivity.
  - vm_compute. reflexivity.
Qed.

(** ** bcrypt cannot tell all passwords apart *)

Lemma card_ascii : card ascii = 256%nat.
Proof. vm_compute. reflexivity. Qed.

Lemma bcrypt_collision gen cmp (salt : list ascii) (cost : Z) (prefix : list ascii) :
  bcrypt_contract gen cmp ->
  List.length salt = 16%nat -> cost <= bcrypt.MaxCost ->
  (List.length prefix <= 11)%nat ->
  exists t1 t2 : list ascii,
    List.length t1 = 61%nat /\ List.length t2 = 61%nat /\ t1 <> t2 /\
    gen (Some salt) (prefix ++ t1)%list cost = gen (Some salt) (prefix ++ t2)%list cost.
Proof.
  intros contract Hsalt Hcost Hprefix.
  set (out := fun l : list ascii =>
                match gen (Some salt) (prefix ++ l)%list cost with
                | bcrypt.Ok h => h
                | bcrypt.Err _ => []
                end).
  assert (forall l, List.length l = 61%nat ->
            gen (Some salt) (prefix ++ l)%list cost = bcrypt.Ok (out l) /\
            List.length (out l) = 60%nat) as Hout.
  { intros l Hl. unfold out.
    destruct (gen_ok _ _ contract salt (prefix ++ l)%list cost) as [h Hh];
      [exact Hsalt | rewrite length_app; lia | exact Hcost |].
    rewrite Hh. split; [reflexivity |].
    apply (gen_length _ _ contract _ _ _ _ Hh). }
  set (f := fun x : {l : list ascii | List.length l = 61%nat} =>
              exist (fun l : list ascii => List.length l = 60%nat)
                (out (proj1_sig x)) (proj2 (Hout _ (proj2_sig x)))).
  destruct (finite_pigeonhole f) as (x1 & x2 & Hne & Hf).
  { rewrite !list_card, card_ascii. apply Nat.pow_lt_mono_r; lia. }
  exists (proj1_sig x1), (proj1_sig x2).
  split; [exact (proj2_sig x1) | split; [exact (proj2_sig x2) | split]].
  - intros E. apply Hne. apply (sig_eq_pi _). exact E.
  - apply (f_equal (@proj1_sig _ _)) in Hf. simpl in Hf.
    rewrite (proj1 (Hout _ (proj2_sig x1))), (proj1 (Hout _ (proj2_sig x2))), Hf.
    reflexivity.
Qed.

Lemma default_policy_accepts_prefixed (unicode_table : rune -> rune) (t : list ascii) :
  List.length t = 61%nat ->
  PasswordValidation.Valid
    (Validate unicode_table New (string_of (bytes_of "Aa1" ++ t)%list)) = true.
Proof.
  intros Ht. rewrite Validate_Valid.
  assert (len (string_of (bytes_of "Aa1" ++ t)%list) = 64) as ->.
  { rewrite len_string_of, length_app, Ht. reflexivity. }
  change (Config.MinLength (config New)) with 8.
  change (Config.MaxLength (config New)) with 128.
  change (Config.RequireUpper (config New)) with true.
  change (Config.RequireLower (config New)) with true.
  change (Config.RequireDigit (config New)) with true.
  change (Config.RequireSpecial (config New)) with false.
  assert (containsUpper (string_of (bytes_of "Aa1" ++ t)%list) = true) as ->.
  { apply containsUpper_spec.
    apply (has_class_from_byte _ _ _ "A"%char);
      [apply list_elem_of_In; simpl; tauto | vm_compute; repeat split; discriminate]. }
  assert (containsLower (string_of (bytes_of "Aa1" ++ t)%list) = true) as ->.
  { apply containsLower_spec.
    apply (has_class_from_byte _ _ _ "a"%char);
      [apply list_elem_of_In; simpl; tauto | vm_compute; repeat split; discriminate]. }
  assert (containsDigit (string_of (bytes_of "Aa1" ++ t)%list) = true) as ->.
  { apply containsDigit_spec.
    apply (has_class_from_byte _ _ _ "1"%char);
      [apply list_elem_of_In; simpl; tauto | vm_compute; repeat split; discriminate]. }
  reflexivity.
Qed.

(** No bcrypt that meets the contract tells all passwords apart: its
    hashes have 60 bytes, and there are more passwords of 64 bytes than
    that. Whatever the salt, two different passwords that satisfy the
    default policy get the same hash, and [Verify] accepts the one
    against the hash of the other. *)
Lemma Verify_accepts_colliding_password (unicode_table : rune -> rune) gen cmp
    (salt : list ascii) (now : Z) :
  bcrypt_contract gen cmp -> List.length salt = 16%nat ->
  exists p p2 hp,
    p2 <> p /\ len p = 64 /\ len p2 = 64 /\
    Hash unicode_table gen New (Some salt) now p = (Some hp, None) /\
    Verify cmp New p2 (HashedPassword.Hash hp) = None.
Proof.
  intros contract Hsalt.
  destruct (bcrypt_collision gen cmp salt 12 (bytes_of "Aa1") contract Hsalt)
    as (t1 & t2 & H1 & H2 & Hne & Hgen);
    [unfold bcrypt.MaxCost; lia | simpl; lia |].
  destruct (gen_ok _ _ contract salt (bytes_of "Aa1" ++ t1)%list 12) as [h Hh];
    [exact Hsalt | rewrite length_app, H1; simpl; lia | unfold bcrypt.MaxCost; lia |].
  exists (string_of (bytes_of "Aa1" ++ t1)%list),
         (string_of (bytes_of "Aa1" ++ t2)%list),
         (HashedPassword.mk (string_of h) "bcrypt" 12 now).
  split; [| split; [| split; [| split]]].
  - intros E. apply (f_equal bytes_of) in E. rewrite !bytes_of_string_of in E.
    apply app_inv_head in E. congruence.
  - rewrite len_string_of, length_app, H1. reflexivity.
  - rewrite len_string_of, length_app, H2. reflexivity.
  - rewrite Hash_accepts by (apply default_policy_accepts_prefixed; exact H1).
    rewrite bytes_of_string_of.
    change (Config.BcryptCost (config New)) with 12. rewrite Hh. reflexivity.
  - cbn [HashedPassword.Hash].
    rewrite (Verify_nonempty cmp New)
      by (eapply generated_hash_nonempty; eassumption).
    rewrite !bytes_of_string_of.
    rewrite Hgen in Hh.
    rewrite (gen_compare _ _ contract _ _ _ _ Hh). reflexivity.
Qed.

(** * Further properties of the package *)

(** ** Construction *)

Lemma NewWithConfig_fixed (c : Config.t) :
  Config.MinLength c <> 0 -> Config.MaxLength c <> 0 ->
  4 <= Config.BcryptCost c <= 31 ->
  NewWithConfig c = {| config := c |}.
Proof.
  destruct c as [mn mx ru rl rd rs cost]. simpl. intros Hmn Hmx Hc.
  unfold NewWithConfig; simpl.
  assert ((mn =? 0) = false) as -> by lia.
  assert ((mx =? 0) = false) as -> by lia.
  assert ((cost =? 0) = false) as -> by lia.
  assert ((cost <? 4) = false) as -> by lia.
  assert ((cost >? 31) = false) as -> by lia.
  reflexivity.
Qed.

Lemma NewWithConfig_flags (c : Config.t) :
  Config.RequireUpper (config (NewWithConfig c)) = Config.RequireUpper c /\
  Config.RequireLower (config (NewWithConfig c)) = Config.RequireLower c /\
  Config.RequireDigit (config (NewWithConfig c)) = Config.RequireDigit c /\
  Config.RequireSpecial (config (NewWithConfig c)) = Config.RequireSpecial c.
Proof. repeat split. Qed.

(** X1. [NewWithConfig] normalises every configuration: the cost lands
    in 4..31, [MinLength] and [MaxLength] are never zero, the four
    requirement flags are kept; normalising twice changes nothing more;
    and a configuration is stored unchanged exactly when its lengths
    are non-zero and its cost is within 4..31. *)
Theorem NewWithConfig_normalises (c : Config.t) :
  4 <= Config.BcryptCost (config (NewWithConfig c)) <= 31 /\
  Config.MinLength (config (NewWithConfig c)) <> 0 /\
  Config.MaxLength (config (NewWithConfig c)) <> 0 /\
  Config.RequireUpper (config (NewWithConfig c)) = Config.RequireUpper c /\
  Config.RequireLower (config (NewWithConfig c)) = Config.RequireLower c /\
  Config.RequireDigit (config (NewWithConfig c)) = Config.RequireDigit c /\
  Config.RequireSpecial (config (NewWithConfig c)) = Config.RequireSpecial c /\
  NewWithConfig (config (NewWithConfig c)) = NewWithConfig c /\
  (GetConfig (NewWithConfig c) = c <->
   Config.MinLength c <> 0 /\ Config.MaxLength c <> 0 /\
   4 <= Config.BcryptCost c <= 31).
Proof.
  pose proof (NewWithConfig_cost_range c) as Hcost.
  pose proof (NewWithConfig_lengths_nonzero c) as [Hmn Hmx].
  split; [exact Hcost | split; [exact Hmn | split; [exact Hmx |]]].
  pose proof (NewWithConfig_flags c) as (Hu & Hl & Hd & Hs).
  do 4 (split; [assumption |]).
  split.
  - rewrite (NewWithConfig_fixed _ Hmn Hmx Hcost).
    destruct (NewWithConfig c). reflexivity.
  - unfold GetConfig. split.
    + intros E. rewrite E in Hcost, Hmn, Hmx. auto.
    + intros (H1 & H2 & H3). rewrite (NewWithConfig_fixed c H1 H2 H3). reflexivity.
Qed.

(** ** Validation *)

Section ValidateMore.

Variable unicode_table : rune -> rune.
Variable pm : Manager.
Variable p : string.

Lemma Validate_Suggestions :
  PasswordValidation.Suggestions (Validate unicode_table pm p) =
  ((if len p <? Config.MinLength (config pm)
    then ["Use a longer password"] else []) ++
   (if Config.RequireUpper (config pm) && negb (containsUpper p)
    then ["Add uppercase letters (A-Z)"] else []) ++
   (if Config.RequireLower (config pm) && negb (containsLower p)
    then ["Add lowercase letters (a-z)"] else []) ++
   (if Config.RequireDigit (config pm) && negb (containsDigit p)
    then ["Add numbers (0-9)"] else []) ++
   (if Config.RequireSpecial (config pm) && negb (containsSpecial p)
    then ["Add special characters (!@#$%^&*)"] else []))%list.
Proof.
  unfold Validate.
  destruct (calculateStrength unicode_table pm p) as [strength score].
  destruct (len p <? _), (len p >? _),
    (Config.RequireUpper _ && _), (Config.RequireLower _ && _),
    (Config.RequireDigit _ && _), (Config.RequireSpecial _ && _);
    reflexivity.
Qed.

Lemma Validate_Strength :
  PasswordValidation.Strength (Validate unicode_table pm p) =
  fst (calculateStrength unicode_table pm p).
Proof.
  unfold Validate.
  destruct (calculateStrength unicode_table pm p) as [strength score].
  reflexivity.
Qed.

(** X2. In the result of [Validate], [Valid] is true exactly when no
    error message was recorded; there are at most six messages; and
    every message but the too-long one comes with one suggestion. *)
Theorem Validate_Valid_iff_no_errors :
  (PasswordValidation.Valid (Validate unicode_table pm p) = true <->
   PasswordValidation.Errors (Validate unicode_table pm p) = []) /\
  (List.length (PasswordValidation.Errors (Validate unicode_table pm p)) <= 6)%nat /\
  List.length (PasswordValidation.Errors (Validate unicode_table pm p)) =
    (List.length (PasswordValidation.Suggestions (Validate unicode_table pm p)) +
     (if len p >? Config.MaxLength (config pm) then 1 else 0))%nat.
Proof.
  rewrite Validate_Valid, Validate_Errors, Validate_Suggestions.
  destruct (len p <? _), (len p >? _),
    (Config.RequireUpper _ && _), (Config.RequireLower _ && _),
    (Config.RequireDigit _ && _), (Config.RequireSpecial _ && _);
    simpl; repeat split; intros; try discriminate; try reflexivity; lia.
Qed.

(** X3. The strength tier needs what its points need: a result of
    [StrengthVeryStrong] is only given to a password of at least 12
    bytes that contains a special character, and a password of fewer
    than 8 bytes without a special character gets [StrengthGood] at
    most. *)
Theorem strength_tier_needs :
  (PasswordValidation.Strength (Validate unicode_table pm p) = StrengthVeryStrong ->
   12 <= len p /\ has_special p) /\
  (len p < 8 -> ~ has_special p ->
   PasswordValidation.Strength (Validate unicode_table pm p) <> StrengthStrong /\
   PasswordValidation.Strength (Validate unicode_table pm p) <> StrengthVeryStrong).
Proof.
  rewrite Validate_Strength. rewrite <- containsSpecial_spec.
  unfold calculateStrength.
  destruct (len p >=? 8) eqn:E8, (len p >=? 12) eqn:E12, (len p >=? 16) eqn:E16,
    (containsLower p), (containsUpper p), (containsDigit p),
    (containsSpecial p), (hasRepeatingChars p),
    (hasSequentialChars unicode_table p); simpl;
    (split;
     [ intros H; first [discriminate H | split; [lia | reflexivity]]
     | intros Hlen Hsp;
       first [lia | exfalso; apply Hsp; reflexivity | split; discriminate] ]).
Qed.

End ValidateMore.

(** X4. Relaxing the policy never invalidates a password: if [p] is
    valid under a policy, it is valid under every policy that asks no
    more (a [MinLength] not larger, a [MaxLength] not smaller, no
    further required class). *)
Theorem Validate_relaxed_policy (unicode_table : rune -> rune) (pm pm' : Manager)
    (p : string) :
  relaxes (config pm') (config pm) ->
  PasswordValidation.Valid (Validate unicode_table pm p) = true ->
  PasswordValidation.Valid (Validate unicode_table pm' p) = true.
Proof.
  intros (Hmin & Hmax & Hu & Hl & Hd & Hs). rewrite !Validate_Valid.
  rewrite !andb_true_iff, !negb_true_iff.
  intros (((((H1 & H2) & H3) & H4) & H5) & H6).
  repeat split; try lia.
  - destruct (Config.RequireUpper (config pm')); [| reflexivity].
    rewrite Hu in H3 by reflexivity. exact H3.
  - destruct (Config.RequireLower (config pm')); [| reflexivity].
    rewrite Hl in H4 by reflexivity. exact H4.
  - destruct (Config.RequireDigit (config pm')); [| reflexivity].
    rewrite Hd in H5 by reflexivity. exact H5.
  - destruct (Config.RequireSpecial (config pm')); [| reflexivity].
    rewrite Hs in H6 by reflexivity. exact H6.
Qed.

(** X4 at the default policy relaxed to six characters and no digit,
    and the plaintext ["Password1"]. *)
Lemma Validate_relaxed_policy_witness :
  PasswordValidation.Valid
    (Validate Plain.table (NewWithConfig (Config.mk 6 200 true true false false 12))
       "Password1") = true.
Proof.
  apply (Validate_relaxed_policy Plain.table New).
  - unfold relaxes. simpl. repeat split; try lia; auto; discriminate.
  - vm_compute. reflexivity.
Defined.

(** ** Hashing, verification and rehash detection *)

Lemma Coded_generate_inv salt password cost h :
  Coded.GenerateFromPassword salt password cost = bcrypt.Ok h ->
  h = (Coded.header (effective_cost cost) ++ Plain.digest password)%list /\
  4 <= effective_cost cost <= 31.
Proof.
  unfold Coded.GenerateFromPassword, effective_cost.
  destruct (72 <? List.length password)%nat; [discriminate |].
  destruct (bcrypt.MaxCost <? _) eqn:Emax; [discriminate |].
  destruct salt; [| discriminate].
  intros E. injection E as <-. split; [reflexivity |].
  unfold bcrypt.MaxCost, bcrypt.MinCost, bcrypt.DefaultCost in *.
  destruct (cost <? 4) eqn:E4; lia.
Qed.

Lemma Coded_contract :
  bcrypt_contract Coded.GenerateFromPassword Plain.CompareHashAndPassword.
Proof.
  split.
  - intros salt password cost Hlen. unfold Coded.GenerateFromPassword.
    apply Nat.ltb_lt in Hlen. rewrite Hlen. reflexivity.
  - intros salt password cost Hlen Hcost. unfold Coded.GenerateFromPassword.
    assert ((72 <? List.length password)%nat = false) as -> by (apply Nat.ltb_ge; lia).
    unfold bcrypt.MaxCost, bcrypt.MinCost in *.
    assert ((cost <? 4) = false) as -> by lia.
    assert ((31 <? cost) = true) as -> by lia.
    reflexivity.
  - intros password cost. unfold Coded.GenerateFromPassword.
    destruct (72 <? List.length password)%nat; [eauto |].
    destruct (bcrypt.MaxCost <? _); eauto.
  - intros salt password cost _ Hlen Hcost. unfold Coded.GenerateFromPassword.
    assert ((72 <? List.length password)%nat = false) as -> by (apply Nat.ltb_ge; lia).
    unfold bcrypt.MaxCost, bcrypt.MinCost, bcrypt.DefaultCost in *.
    destruct (cost <? 4) eqn:E.
    + simpl. eauto.
    + assert ((31 <? cost) = false) as -> by lia. eauto.
  - intros salt password cost h E. apply Coded_generate_inv in E as [-> _].
    rewrite length_app, length_digest. reflexivity.
  - intros salt password cost h E. apply Coded_generate_inv in E as [-> _].
    unfold Plain.CompareHashAndPassword.
    assert ((List.length (Coded.header (effective_cost cost) ++ Plain.digest password)
             <? 59)%nat = false) as ->.
    { apply Nat.ltb_ge. rewrite length_app, length_digest. simpl. lia. }
    rewrite bool_decide_eq_true_2; reflexivity.
  - intros h password Hlen. unfold Plain.CompareHashAndPassword.
    apply Nat.ltb_lt in Hlen. rewrite Hlen. reflexivity.
  - intros h password password' E. unfold Plain.CompareHashAndPassword, Plain.digest.
    rewrite E. reflexivity.
Qed.

Lemma byte_val_digit (n : Z) :
  0 <= n <= 9 -> byte_val (Coded.digit n) - byte_val "0" = n.
Proof.
  intros Hn. unfold Coded.digit.
  change (byte_val "0") with 48.
  rewrite byte_val_byte_of by lia. lia.
Qed.

Lemma Coded_cost_contract :
  bcrypt_cost_contract Coded.GenerateFromPassword Coded.Cost.
Proof.
  split.
  - intros salt password cost h E.
    apply Coded_generate_inv in E as [-> Hrange].
    set (e := effective_cost cost) in *. unfold Coded.Cost.
    assert ((List.length (Coded.header e ++ Plain.digest password)%list <? 59)%nat = false)
      as ->.
    { apply Nat.ltb_ge. rewrite length_app, length_digest. simpl. lia. }
    change ((Coded.header e ++ Plain.digest password)%list !! 4%nat)
      with (Some (Coded.digit (e / 10))).
    change ((Coded.header e ++ Plain.digest password)%list !! 5%nat)
      with (Some (Coded.digit (e mod 10))).
    pose proof (Z.div_mod e 10 ltac:(lia)) as Hdm.
    pose proof (Z.mod_pos_bound e 10 ltac:(lia)) as Hm.
    cbv beta iota. rewrite !byte_val_digit by lia. f_equal. lia.
  - intros h Hlen. unfold Coded.Cost.
    apply Nat.ltb_lt in Hlen. rewrite Hlen. reflexivity.
Qed.

Section HashMore.

Variable unicode_table : rune -> rune.
Variable gen : option (list ascii) -> list ascii -> Z -> bcrypt.result (list ascii).
Variable cmp : list ascii -> list ascii -> option bcrypt.error.
Variable cost_of : list ascii -> bcrypt.result Z.
Variable pm : Manager.

(** X5. [Hash] returns either a [HashedPassword] and no error, or an
    error and no [HashedPassword]. A [HashedPassword] is only returned
    for a plaintext that passes [Validate], names the algorithm
    ["bcrypt"], the configured cost and the time of the call, and holds
    what bcrypt returned. An error is [ErrPasswordTooWeak] (by
    [errors.Is]) exactly when the plaintext fails [Validate], and
    [ErrHashingFailed] exactly when it passes and bcrypt failed. *)
Theorem Hash_outcomes (salt : option (list ascii)) (now : Z) (p : string) :
  match Hash unicode_table gen pm salt now p with
  | (Some hp, None) =>
      PasswordValidation.Valid (Validate unicode_table pm p) = true /\
      HashedPassword.Algorithm hp = "bcrypt" /\
      HashedPassword.Cost hp = Config.BcryptCost (config pm) /\
      HashedPassword.CreatedAt hp = now /\
      gen salt (bytes_of p) (Config.BcryptCost (config pm)) =
        bcrypt.Ok (bytes_of (HashedPassword.Hash hp))
  | (None, Some err) =>
      (PasswordValidation.Valid (Validate unicode_table pm p) = false /\
       errors_Is err ErrPasswordTooWeak = true /\
       errors_Is err ErrHashingFailed = false) \/
      (PasswordValidation.Valid (Validate unicode_table pm p) = true /\
       errors_Is err ErrHashingFailed = true /\
       errors_Is err ErrPasswordTooWeak = false /\
       exists e, gen salt (bytes_of p) (Config.BcryptCost (config pm)) = bcrypt.Err e)
  | _ => False
  end.
Proof.
  unfold Hash.
  destruct (PasswordValidation.Valid (Validate unicode_table pm p)); simpl.
  - destruct (gen salt (bytes_of p) _) as [h | e]; simpl.
    + rewrite bytes_of_string_of. repeat split.
    + right. repeat split. exists e. reflexivity.
  - left. repeat split.
Qed.

(** X6. [VerifyAndCheck] returns an error exactly when the hash string
    is empty, and the error is then [ErrInvalidHash]; it answers true
    exactly when [Verify] returns nil; for a non-empty hash that bcrypt
    rejects, for whatever reason, it answers false with a nil error. *)
Theorem VerifyAndCheck_outcomes (p h : string) :
  (snd (VerifyAndCheck cmp pm p h) <> None <-> h = "") /\
  (h = "" -> VerifyAndCheck cmp pm p h = (false, Some (Sentinel ErrInvalidHash))) /\
  (fst (VerifyAndCheck cmp pm p h) = true <-> Verify cmp pm p h = None) /\
  (h <> "" ->
   VerifyAndCheck cmp pm p h =
   match cmp (bytes_of h) (bytes_of p) with
   | None => (true, None)
   | Some _ => (false, None)
   end).
Proof.
  unfold VerifyAndCheck.
  destruct (String.eqb_spec h "") as [-> | Hne].
  - simpl. repeat split; intros; try congruence; try discriminate.
  - rewrite (Verify_nonempty cmp pm p h Hne).
    destruct (cmp _ _) as [[] |]; simpl; repeat split; intros;
      try congruence; try discriminate.
Qed.

Hypothesis contract : bcrypt_contract gen cmp.

(** X7. [Hash] never returns a [HashedPassword] for a plaintext of
    more than 72 bytes, whatever the policy allows: when the plaintext
    passes [Validate], the error is [ErrHashingFailed] wrapped around
    bcrypt's [ErrPasswordTooLong]. *)
Theorem Hash_refuses_long_password (salt : option (list ascii)) (now : Z) (p : string) :
  72 < len p ->
  exists err,
    Hash unicode_table gen pm salt now p = (None, Some err) /\
    (PasswordValidation.Valid (Validate unicode_table pm p) = true ->
     err = Errorf_w_v ErrHashingFailed bcrypt.ErrPasswordTooLong).
Proof.
  intros Hlen.
  destruct (PasswordValidation.Valid (Validate unicode_table pm p)) eqn:Hv.
  - rewrite (Hash_too_long unicode_table gen cmp pm contract salt now p Hv Hlen).
    eexists. split; reflexivity.
  - rewrite (Hash_rejects unicode_table gen pm salt now p Hv).
    eexists. split; [reflexivity | discriminate].
Qed.

(** X8. [HashString] returns the empty string with every error; a
    string it returns with a nil error is a hash of 60 bytes of a
    plaintext that passes [Validate], and [Verify] accepts the plaintext
    against it. *)
Theorem HashString_outcomes (salt : option (list ascii)) (now : Z) (p : string) :
  match HashString unicode_table gen pm salt now p with
  | (h, None) =>
      len h = 60 /\
      PasswordValidation.Valid (Validate unicode_table pm p) = true /\
      Verify cmp pm p h = None
  | (h, Some _) => h = ""
  end.
Proof.
  unfold HashString.
  destruct (Hash unicode_table gen pm salt now p) as [[hp |] [err |]] eqn:HH;
    try reflexivity.
  - split; [| split].
    + pose proof HH as Hinv.
      apply Hash_success_inv in Hinv as (_ & _ & h & Hgen & ->).
      rewrite len_string_of.
      rewrite (gen_length _ _ contract _ _ _ _ Hgen). reflexivity.
    + apply Hash_success_inv in HH. tauto.
    + apply (Verify_generated unicode_table gen cmp pm contract salt now p p hp HH).
      reflexivity.
  - unfold Hash in HH.
    destruct (PasswordValidation.Valid (Validate unicode_table pm p));
      [destruct (gen salt (bytes_of p) _) |]; discriminate HH.
Qed.

Hypothesis cost_contract : bcrypt_cost_contract gen cost_of.

(** X9. [NeedsRehash] answers true for every hash string that bcrypt
    cannot read because it has fewer than 59 bytes, the empty string
    among them. *)
Theorem NeedsRehash_unreadable (h : string) :
  len h < 59 -> NeedsRehash cost_of pm h = true.
Proof.
  intros Hlen. unfold NeedsRehash.
  rewrite (cost_short _ _ cost_contract); [reflexivity |].
  rewrite <- length_bytes_of in Hlen. lia.
Qed.

(** X10. For a hash that [Hash] has just returned under the manager
    [pm], [NeedsRehash] under a manager [pm'] answers true exactly when
    the cost of [pm'] differs from the cost bcrypt worked with (the
    cost of [pm], or 10 when that is below 4). So it answers false under
    the manager that hashed when its cost is at least 4, as after
    [NewWithConfig], and true under that manager when its cost is below
    4, as [UpdateConfig] can leave it. *)
Theorem NeedsRehash_after_Hash (pm' : Manager) (salt : option (list ascii)) (now : Z)
    (p : string) (hp : HashedPassword.t) :
  Hash unicode_table gen pm salt now p = (Some hp, None) ->
  (NeedsRehash cost_of pm' (HashedPassword.Hash hp) = true <->
   effective_cost (Config.BcryptCost (config pm)) <> Config.BcryptCost (config pm')) /\
  (4 <= Config.BcryptCost (config pm) ->
   NeedsRehash cost_of pm (HashedPassword.Hash hp) = false) /\
  (Config.BcryptCost (config pm) < 4 ->
   NeedsRehash cost_of pm (HashedPassword.Hash hp) = true).
Proof.
  intros HH. apply Hash_success_inv in HH as (_ & _ & h & Hgen & ->).
  apply (cost_generated _ _ cost_contract) in Hgen.
  unfold NeedsRehash. rewrite bytes_of_string_of, Hgen.
  unfold effective_cost, bcrypt.MinCost, bcrypt.DefaultCost.
  split; [| split].
  - rewrite negb_true_iff. split; intros H; lia.
  - intros Hc. assert ((Config.BcryptCost (config pm) <? 4) = false) as -> by lia.
    rewrite Z.eqb_refl. reflexivity.
  - intros Hc. assert ((Config.BcryptCost (config pm) <? 4) = true) as -> by lia.
    apply negb_true_iff. lia.
Qed.

End HashMore.

(** X7 at the default policy and the 73 bytes of [password73]. *)
Lemma Hash_refuses_long_password_witness :
  exists err,
    Hash Plain.table Plain.GenerateFromPassword New (Some salt16) 0 password73
      = (None, Some err) /\
    (PasswordValidation.Valid (Validate Plain.table New password73) = true ->
     err = Errorf_w_v ErrHashingFailed bcrypt.ErrPasswordTooLong).
Proof.
  apply (Hash_refuses_long_password Plain.table Plain.GenerateFromPassword
           Plain.CompareHashAndPassword New Plain_contract).
  vm_compute. reflexivity.
Defined.

(** X8 at the default policy and the plaintext ["Password1"]. *)
Lemma HashString_outcomes_witness :
  match HashString Plain.table Coded.GenerateFromPassword New (Some salt16) 0
          "Password1" with
  | (h, None) =>
      len h = 60 /\
      PasswordValidation.Valid (Validate Plain.table New "Password1") = true /\
      Verify Plain.CompareHashAndPassword New "Password1" h = None
  | (h, Some _) => h = ""
  end.
Proof.
  apply (HashString_outcomes Plain.table Coded.GenerateFromPassword
           Plain.CompareHashAndPassword New Coded_contract).
Defined.

(** X9 at the empty hash string. *)
Lemma NeedsRehash_unreadable_witness :
  NeedsRehash Coded.Cost New "" = true.
Proof.
  apply (NeedsRehash_unreadable Coded.GenerateFromPassword Coded.Cost New
           Coded_cost_contract).
  vm_compute. reflexivity.
Defined.

(** X10 at a hash made with cost 12 and a manager of cost 14. *)
Lemma NeedsRehash_after_Hash_witness :
  NeedsRehash Coded.Cost (NewWithConfig (Config.mk 8 128 true true true false 14))
    (string_of (Coded.header 12 ++ Plain.digest (bytes_of "Password1"))) = true <->
  effective_cost 12 <> 14.
Proof.
  apply (NeedsRehash_after_Hash Plain.table Coded.GenerateFromPassword Coded.Cost New
           Coded_cost_contract
           (NewWithConfig (Config.mk 8 128 true true true false 14))
           (Some salt16) 0 "Password1"
           (HashedPassword.mk
              (string_of (Coded.header 12 ++ Plain.digest (bytes_of "Password1")))
              "bcrypt" 12 0)).
  vm_compute. reflexivity.
Defined.

(** ** The character classes are read byte by byte *)

Lemma land_63 (a : Z) : Z.land a 63 = a mod 64.
Proof. apply (Z.land_ones a 6). lia. Qed.

Lemma land_31 (a : Z) : Z.land a 31 = a mod 32.
Proof. apply (Z.land_ones a 5). lia. Qed.

Lemma land_15 (a : Z) : Z.land a 15 = a mod 16.
Proof. apply (Z.land_ones a 4). lia. Qed.

Lemma land_7 (a : Z) : Z.land a 7 = a mod 8.
Proof. apply (Z.land_ones a 3). lia. Qed.

Ltac low_bits :=
  rewrite ?land_63, ?land_31, ?land_15, ?land_7;
  rewrite !Z.shiftl_mul_pow2 by lia.

Ltac accept_cases H :=
  unfold accept in H;
  repeat match type of H with
         | (if ?c then _ else _) = _ => destruct c eqn:?
         end;
  inversion H; subst.

Lemma decodeRune_value (b0 : Z) (rest : list Z) (r : rune) (w : nat) :
  decodeRune b0 rest = (r, w) ->
  (b0 < 128 /\ r = b0) \/ 128 <= r.
Proof.
  unfold decodeRune, RuneSelf, RuneError.
  destruct (b0 <? 128) eqn:Hb0.
  { intros E. inversion E. left. lia. }
  intros E. right.
  destruct (accept b0) as [[[sz lo] hi] |] eqn:Hacc; [| inversion E; lia].
  destruct rest as [| b1 rest1]; [inversion E; lia |].
  destruct ((lo <=? b1) && (b1 <=? hi)) eqn:H1; simpl in E; [| inversion E; lia].
  destruct (sz =? 2)%nat eqn:Hsz2.
  { inversion E; subst r w. low_bits.
    rewrite (lor_disjoint (b0 mod 32) (b1 mod 64) 6) by (Z.div_mod_to_equations; lia).
    accept_cases Hacc; try discriminate Hsz2; Z.div_mod_to_equations; lia. }
  destruct rest1 as [| b2 rest2]; [inversion E; lia |].
  unfold is_cont in E.
  destruct ((128 <=? b2) && (b2 <=? 191)) eqn:H2; simpl in E; [| inversion E; lia].
  destruct (sz =? 3)%nat eqn:Hsz3.
  { inversion E; subst r w. low_bits.
    rewrite (lor_disjoint (b1 mod 64) (b2 mod 64) 6) by (Z.div_mod_to_equations; lia).
    rewrite (lor_disjoint (b0 mod 16) _ 12) by (Z.div_mod_to_equations; lia).
    accept_cases Hacc; try discriminate Hsz2; try discriminate Hsz3;
      Z.div_mod_to_equations; lia. }
  destruct rest2 as [| b3 rest3]; [inversion E; lia |].
  destruct ((128 <=? b3) && (b3 <=? 191)) eqn:H3; simpl in E; [| inversion E; lia].
  inversion E; subst r w. low_bits.
  rewrite (lor_disjoint (b2 mod 64) (b3 mod 64) 6) by (Z.div_mod_to_equations; lia).
  rewrite (lor_disjoint (b1 mod 64) _ 12) by (Z.div_mod_to_equations; lia).
  rewrite (lor_disjoint (b0 mod 8) _ 18) by (Z.div_mod_to_equations; lia).
  accept_cases Hacc; try discriminate Hsz2; try discriminate Hsz3;
    Z.div_mod_to_equations; lia.
Qed.

Lemma decode_from_low (bs : list Z) (skip : nat) (x : Z) :
  In x (decode_from bs skip) -> x < 128 -> In x bs.
Proof.
  revert skip. induction bs as [| b0 rest IH]; intros skip Hin Hx;
    [destruct skip; contradiction |].
  destruct skip as [| k]; simpl in Hin.
  - destruct (decodeRune b0 rest) as [r w] eqn:Hd.
    apply decodeRune_value in Hd.
    destruct Hin as [<- | Hin].
    + destruct Hd as [[_ ->] | Hr]; [left; reflexivity | lia].
    + right. apply (IH _ Hin Hx).
  - right. apply (IH _ Hin Hx).
Qed.

Lemma low_rune_is_byte (s : string) (r : rune) :
  r < 128 -> (In r (runes s) <-> exists c, In c (bytes_of s) /\ byte_val c = r).
Proof.
  intros Hr. split.
  - intros Hin. apply decode_from_low in Hin; [| exact Hr].
    apply in_map_iff in Hin as (c & Hc & Hin). eauto.
  - intros (c & Hin & <-). apply ascii_byte_rune; [| exact Hr].
    apply list_elem_of_In. exact Hin.
Qed.

Lemma byte_val_inj (a b : ascii) : byte_val a = byte_val b -> a = b.
Proof.
  unfold byte_val. intros E. apply N2Z.inj in E.
  rewrite <- (ascii_N_embedding a), <- (ascii_N_embedding b), E. reflexivity.
Qed.

Lemma class_bytewise (lo hi : rune) (s : string) :
  hi < 128 -> (has_rune_in lo hi s <-> has_byte_in lo hi s).
Proof.
  intros Hhi. unfold has_rune_in, has_byte_in. split.
  - intros (r & Hin & Hr). apply low_rune_is_byte in Hin as (c & Hc & <-); [| lia].
    eauto.
  - intros (c & Hc & Hr). exists (byte_val c). split; [| exact Hr].
    apply low_rune_is_byte; [lia | eauto].
Qed.

Lemma special_bytewise (s : string) : has_special s <-> has_special_byte s.
Proof.
  unfold has_special, has_special_byte.
  assert (forall r, In r (runes specialChars) ->
            r < 128 /\ exists c, In c (bytes_of specialChars) /\ byte_val c = r) as Hsp.
  { intros r Hr.
    assert (forallb (fun r => r <? 128) (runes specialChars) = true) as Hall
      by reflexivity.
    rewrite forallb_forall in Hall. pose proof (Hall r Hr) as Hlt.
    split; [lia |]. apply low_rune_is_byte; [lia | exact Hr]. }
  split.
  - intros (r & Hin & Hr). destruct (Hsp r Hr) as (Hlt & c' & Hc' & E').
    apply low_rune_is_byte in Hin as (c & Hc & E); [| exact Hlt].
    exists c. split; [exact Hc |].
    assert (c = c') as -> by (apply byte_val_inj; congruence). exact Hc'.
  - intros (c & Hc & Hsc).
    assert (In (byte_val c) (runes specialChars)) as Hr.
    { apply ascii_byte_rune; [apply list_elem_of_In; exact Hsc |].
      assert (forallb (fun c => byte_val c <? 128) (bytes_of specialChars) = true)
        as Hall by reflexivity.
      rewrite forallb_forall in Hall. apply Hall in Hsc. lia. }
    exists (byte_val c). split; [| exact Hr].
    destruct (Hsp _ Hr) as [Hlt _].
    apply low_rune_is_byte; [exact Hlt | eauto].
Qed.

(** X11. The four class checks read single bytes: [containsUpper],
    [containsLower], [containsDigit] and [containsSpecial] answer true
    exactly when the string holds a byte of the class (A-Z, a-z, 0-9,
    one of the listed special characters). No character of several
    bytes ever counts for a class, and decoding never hides a byte of a
    class. *)
Theorem class_checks_bytewise (s : string) :
  (containsUpper s = true <-> has_byte_in (rn "A") (rn "Z") s) /\
  (containsLower s = true <-> has_byte_in (rn "a") (rn "z") s) /\
  (containsDigit s = true <-> has_byte_in (rn "0") (rn "9") s) /\
  (containsSpecial s = true <-> has_special_byte s).
Proof.
  rewrite containsUpper_spec, containsLower_spec, containsDigit_spec,
    containsSpecial_spec.
  repeat split; try (apply class_bytewise; reflexivity);
    try (apply special_bytewise).
Qed.

(** ** Repeated characters *)

Lemma get_lookup (s : string) (i : nat) : String.get i s = bytes_of s !! i.
Proof.
  revert i. induction s as [| a s IH]; intros [| i]; simpl; try reflexivity.
  apply IH.
Qed.

(** X12. [hasRepeatingChars] answers true exactly when some byte stands
    three times in a row in the string. *)
Theorem hasRepeatingChars_iff (s : string) :
  hasRepeatingChars s = true <-> has_triple s.
Proof.
  unfold hasRepeatingChars, has_triple. split.
  - destruct (len s <? 3) eqn:Hlen; [discriminate |].
    intros H. apply existsb_exists in H as (i & Hi & H).
    rewrite !get_lookup in H.
    destruct (bytes_of s !! i) as [a |] eqn:Ha; [| discriminate].
    destruct (bytes_of s !! (i + 1)%nat) as [b |] eqn:Hb; [| discriminate].
    destruct (bytes_of s !! (i + 2)%nat) as [c |] eqn:Hc; [| discriminate].
    apply andb_true_iff in H as [Hab Hbc].
    apply Ascii.eqb_eq in Hab, Hbc. subst b c.
    exists (take i (bytes_of s)), a, (drop (i + 3) (bytes_of s)).
    rewrite <- (take_drop_middle _ _ _ Ha) at 1. f_equal. simpl. f_equal.
    replace (S i) with (i + 1)%nat by lia.
    rewrite <- (take_drop_middle _ _ _ Hb) at 1.
    rewrite drop_app_length'
      by (rewrite length_take; apply lookup_lt_Some in Hb; lia).
    f_equal.
    replace (S (i + 1)) with (i + 2)%nat by lia.
    rewrite <- (take_drop_middle _ _ _ Hc) at 1.
    rewrite drop_app_length'
      by (rewrite length_take; apply lookup_lt_Some in Hc; lia).
    f_equal. f_equal. lia.
  - intros (pre & c & post & E).
    assert (len s = Z.of_nat (List.length pre + 3 + List.length post)) as Hlen.
    { rewrite <- length_bytes_of, E, !length_app. simpl. lia. }
    assert ((len s <? 3) = false) as -> by lia.
    apply existsb_exists. exists (List.length pre). split.
    + apply in_seq. lia.
    + rewrite !get_lookup, E.
      rewrite lookup_app_r by lia. rewrite Nat.sub_diag.
      rewrite (lookup_app_r pre) by lia.
      replace (List.length pre + 1 - List.length pre)%nat with 1%nat by lia.
      rewrite (lookup_app_r pre) by lia.
      replace (List.length pre + 2 - List.length pre)%nat with 2%nat by lia.
      simpl. rewrite Ascii.eqb_refl. reflexivity.
Qed.

(** ** Random numbers and generated passwords *)

(** X13. [randomInt(max)] returns 0 without reading the random source
    when [max] is not positive. For a positive [max] it makes one read
    and returns a number strictly between [-max] and [max]: one in
    [0, max) when the read succeeds, and the remainder of the clock
    reading when it fails, which is negative only for a clock reading
    before 1970. *)
Theorem randomInt_range (rand_Read : nat -> Draw) (max : Z) (k : nat) :
  (max <= 0 -> randomInt rand_Read max k = Some (0, k)) /\
  (0 < max ->
   exists r,
     randomInt rand_Read max k = Some (r, S k) /\
     - max < r < max /\
     match rand_Read k with
     | ReadOk _ _ _ _ => 0 <= r
     | ReadFailed unixNano => r = Z.rem unixNano max /\ (0 <= unixNano -> 0 <= r)
     end).
Proof.
  unfold randomInt. split.
  - intros Hmax. assert ((max <=? 0) = true) as -> by lia. reflexivity.
  - intros Hmax. assert ((max <=? 0) = false) as -> by lia.
    destruct (rand_Read k) as [b0 b1 b2 b3 | t].
    + pose proof (byte_val_bounds b0). pose proof (byte_val_bounds b1).
      pose proof (byte_val_bounds b2). pose proof (byte_val_bounds b3).
      set (n := Z.lor _ _).
      assert (0 <= n) as Hn.
      { unfold n. rewrite !Z.lor_nonneg, !Z.shiftl_nonneg. lia. }
      assert ((n <? 0) = false) as -> by lia.
      pose proof (Z.rem_bound_pos n max Hn Hmax).
      eexists. split; [reflexivity |]. lia.
    + pose proof (Z.rem_bound_abs t max ltac:(lia)) as Habs.
      eexists. split; [reflexivity |]. split; [lia |].
      split; [reflexivity |].
      intros Ht. apply Z.rem_bound_pos; lia.
Qed.

Lemma get_in (s : string) (n : nat) (c : ascii) :
  String.get n s = Some c -> c ∈ bytes_of s.
Proof.
  rewrite get_lookup. apply list_elem_of_lookup_2.
Qed.

Lemma str_index_in (s : string) (i : Z) (c : ascii) :
  str_index s i = Some c -> c ∈ bytes_of s.
Proof.
  unfold str_index. destruct (i <? 0); [discriminate |]. apply get_in.
Qed.

Lemma bytes_of_append (a b : string) :
  bytes_of (a +:+ b) = (bytes_of a ++ bytes_of b)%list.
Proof.
  induction a as [| c a IH]; simpl; [reflexivity |].
  unfold bytes_of in *. simpl. rewrite IH. reflexivity.
Qed.

Section Alphabet.

Variable free_memory : Z.
Variable rand_Read : nat -> Draw.

Lemma add_class_alphabet (enabled : bool) (class : string)
    (acc acc' : string * list ascii) (k k' : nat) :
  add_class rand_Read enabled class acc k = Some (acc', k') ->
  Forall (fun c => c ∈ bytes_of (fst acc)) (snd acc) ->
  Forall (fun c => c ∈ bytes_of (fst acc')) (snd acc').
Proof.
  unfold add_class. destruct acc as [charset required]. simpl.
  destruct enabled.
  - intros E Hall.
    apply bind_inv in E as (r & k1 & _ & E).
    apply bind_inv in E as (c & k2 & Ec & E).
    unfold must in Ec. destruct (str_index class r) as [c' |] eqn:Hc; [| discriminate].
    unfold ret in Ec, E. inversion Ec; inversion E; subst; simpl.
    rewrite bytes_of_append. apply Forall_app. split.
    + eapply Forall_impl; [exact Hall |]. intros x Hx. simpl in Hx.
      apply elem_of_app. left. exact Hx.
    + constructor; [| constructor]. apply elem_of_app. right.
      apply (str_index_in _ _ _ Hc).
  - unfold ret. intros E Hall. inversion E; subst. exact Hall.
Qed.

Lemma build_charset_alphabet (cfg : Config.t) (k k' : nat) (charset : string)
    (required : list ascii) :
  build_charset rand_Read cfg k = Some ((charset, required), k') ->
  Forall (fun c => c ∈ bytes_of charset) required.
Proof.
  unfold build_charset. intros E.
  apply bind_inv in E as (a1 & k1 & E1 & E).
  apply bind_inv in E as (a2 & k2 & E2 & E).
  apply bind_inv in E as (a3 & k3 & E3 & E4).
  apply add_class_alphabet in E1; [| constructor].
  apply add_class_alphabet in E2; [| exact E1].
  apply add_class_alphabet in E3; [| exact E2].
  apply add_class_alphabet in E4; [| exact E3].
  exact E4.
Qed.

Lemma fill_alphabet (charset : string) (n a : nat) (pw pw' : list ascii) (k k' : nat) :
  for_each (seq a n)
    (fun password i =>
       j <- randomInt rand_Read (len charset) ;;
       c <- must (str_index charset j) ;;
       ret (<[i := c]> password)) pw k = Some (pw', k') ->
  List.length pw' = List.length pw /\
  (forall j, (j < a)%nat -> pw' !! j = pw !! j) /\
  (forall j, (a <= j < a + n)%nat -> (j < List.length pw)%nat ->
             exists c, pw' !! j = Some c /\ c ∈ bytes_of charset).
Proof.
  revert a pw k. induction n as [| n IH]; intros a pw k; simpl.
  - unfold ret. intros E. inversion E; subst.
    split; [reflexivity | split; [intros; reflexivity | intros; lia]].
  - intros E.
    apply bind_inv in E as (pw1 & k1 & E1 & E).
    apply bind_inv in E1 as (r & k2 & _ & E1).
    apply bind_inv in E1 as (c & k3 & Ec & E1).
    unfold must in Ec. destruct (str_index charset r) as [c' |] eqn:Hc; [| discriminate].
    unfold ret in Ec, E1. inversion Ec; inversion E1; subst.
    apply IH in E as (Hlen & Hlow & Hhigh).
    rewrite length_insert in Hlen, Hhigh.
    split; [exact Hlen | split].
    + intros j Hj. rewrite Hlow by lia. apply list_lookup_insert_ne. lia.
    + intros j Hj Hjlen.
      destruct (decide (j = a)) as [-> | Hne].
      * exists c. rewrite Hlow by lia.
        rewrite list_lookup_insert_eq by lia.
        split; [reflexivity | apply (str_index_in _ _ _ Hc)].
      * apply Hhigh; lia.
Qed.

Lemma swap_subset (pw pw' : list ascii) (i : nat) (j : Z) (k k' : nat) :
  swap pw i j k = Some (pw', k') -> forall c, c ∈ pw' -> c ∈ pw.
Proof.
  unfold swap. destruct (j <? 0); [discriminate |].
  unfold bind, must, ret.
  destruct (pw !! i) as [a |] eqn:Ha; [| discriminate].
  destruct (pw !! Z.to_nat j) as [b |] eqn:Hb; [| discriminate].
  intros E c Hc. inversion E; subst.
  apply list_elem_of_lookup in Hc as [idx Hidx].
  apply list_lookup_insert_Some in Hidx as [(_ & <- & _) | (_ & Hidx)].
  - apply (list_elem_of_lookup_2 _ _ _ Ha).
  - apply list_lookup_insert_Some in Hidx as [(_ & <- & _) | (_ & Hidx)].
    + apply (list_elem_of_lookup_2 _ _ _ Hb).
    + apply (list_elem_of_lookup_2 _ _ _ Hidx).
Qed.

Lemma shuffle_subset (idxs : list nat) (pw pw' : list ascii) (k k' : nat) :
  for_each idxs
    (fun password i =>
       j <- randomInt rand_Read (Z.of_nat (List.length password)) ;;
       swap password i j) pw k = Some (pw', k') ->
  List.length pw' = List.length pw /\ forall c, c ∈ pw' -> c ∈ pw.
Proof.
  revert pw k. induction idxs as [| i idxs IH]; intros pw k; simpl.
  - unfold ret. intros E. inversion E; subst. split; [reflexivity | auto].
  - intros E.
    apply bind_inv in E as (pw1 & k1 & E1 & E).
    apply bind_inv in E1 as (r & k2 & _ & Es).
    apply IH in E as [Hlen Hsub].
    pose proof (swap_subset _ _ _ _ _ _ Es) as Hsw.
    apply swap_result in Es as [Hl _].
    split; [congruence | auto].
Qed.

Lemma generate_password_alphabet (L : Z) (charset : string) (required pw : list ascii)
    (k k' : nat) :
  generate_password free_memory rand_Read L charset required k = Some (pw, k') ->
  Forall (fun c => c ∈ bytes_of charset) required ->
  0 <= L /\ Z.of_nat (List.length pw) = L /\
  Forall (fun c => c ∈ bytes_of charset) pw.
Proof.
  unfold generate_password.
  destruct ((L <? 0) || (maxAlloc <? L)) eqn:HL; [discriminate |].
  apply orb_false_iff in HL as [HL _].
  destruct (free_memory <? L); [discriminate |].
  pose proof (place_required L required (replicate (Z.to_nat L) zero)) as Hplace.
  simpl in Hplace. set (P0 := foldl _ _ _) in *.
  destruct Hplace as [Hlen0 Hget0]. rewrite length_replicate in Hlen0, Hget0.
  intros E Hreq.
  apply bind_inv in E as (P1 & k1 & Efill & Eshuffle).
  apply fill_alphabet in Efill as (Hlen1 & Hlow & Hhigh).
  apply shuffle_subset in Eshuffle as [Hlen2 Hsub].
  split; [lia | split; [lia |]].
  apply Forall_forall. intros c Hc. apply Hsub in Hc.
  apply list_elem_of_lookup in Hc as [j Hj].
  pose proof (lookup_lt_Some _ _ _ Hj) as Hjlt.
  destruct (Nat.lt_ge_cases j (List.length required)) as [Hlt | Hge].
  - rewrite Hlow in Hj by exact Hlt.
    rewrite Hget0 in Hj by lia.
    rewrite Forall_forall in Hreq. apply Hreq.
    apply (list_elem_of_lookup_2 _ _ _ Hj).
  - destruct (Hhigh j) as (c' & Hc' & Hin); [lia | lia |].
    congruence.
Qed.

(** X15. Every character of a password [GenerateRandomPassword]
    returns comes from the allowed set: the classes the policy requires,
    or the letters and digits when it requires none. No other byte, and
    no zero byte, ever appears. *)
Theorem GenerateRandomPassword_alphabet (pm : Manager) (n : Z) (k k' : nat)
    (s : string) (e : option error) :
  GenerateRandomPassword free_memory rand_Read pm n k = Some ((s, e), k') ->
  forall c, In c (bytes_of s) -> In c (bytes_of (charset_of (config pm))).
Proof.
  unfold GenerateRandomPassword. intros E.
  apply bind_inv in E as ([charset required] & k1 & Eb & E).
  apply bind_inv in E as (pw & k2 & Eg & E).
  destruct (free_memory - _ <? Z.of_nat (List.length pw)); [discriminate E |].
  unfold ret in E. inversion E; subst.
  pose proof (build_charset_alphabet _ _ _ _ _ Eb) as Hreq.
  apply build_charset_result in Eb as (_ & Hcs & _).
  rewrite Hcs in Eg.
  apply generate_password_alphabet in Eg as (_ & _ & Hall).
  - intros c Hc. rewrite bytes_of_string_of in Hc.
    rewrite Forall_forall in Hall. apply list_elem_of_In, Hall, list_elem_of_In, Hc.
  - rewrite <- Hcs.
    destruct (String.eqb_spec charset "") as [-> | Hne]; [| exact Hreq].
    destruct required as [| c required]; [constructor |].
    apply Forall_cons in Hreq as [Hc _]. inversion Hc.
Qed.

Hypothesis clock : clock_after_epoch rand_Read.

Lemma generate_password_total (L : Z) (charset : string) (required : list ascii)
    (k : nat) :
  0 < len charset -> 0 <= L <= maxAlloc -> L <= free_memory ->
  exists pw k',
    generate_password free_memory rand_Read L charset required k = Some (pw, k').
Proof.
  intros Hcs HL Hmem. unfold generate_password.
  assert ((L <? 0) || (maxAlloc <? L) = false) as -> by lia.
  assert ((free_memory <? L) = false) as -> by lia.
  set (P0 := foldl _ _ _).
  destruct (fill_ok rand_Read clock charset
              (Z.to_nat L - List.length required) (List.length required) P0 k Hcs)
    as (P1 & k1 & Hfill & _).
  rewrite (bind_Some _ _ _ _ _ Hfill).
  destruct (shuffle_ok rand_Read clock (seq 0 (List.length P1)) P1 k1)
    as (P2 & k2 & Hshuffle & _).
  { apply Forall_forall. intros i Hi. apply elem_of_seq in Hi. lia. }
  eauto.
Qed.

(** X14. [GenerateRandomPassword(n)] panics when the clamped length is
    negative (as under a negative [MaxLength]) or above [maxAlloc] (as
    under a [MaxLength] of [1 << 62]): [make] refuses both, whatever
    memory there is. For a clamped length from 0 to [maxAlloc], with the
    memory for the buffer and for the string and a clock that reads no
    time before 1970, it returns a nil error and a string of exactly
    the clamped length, whatever the random reads return. *)
Theorem GenerateRandomPassword_total (pm : Manager) (n : Z) (k : nat) :
  (clamped_length (config pm) n < 0 \/ maxAlloc < clamped_length (config pm) n ->
   GenerateRandomPassword free_memory rand_Read pm n k = None) /\
  (0 <= clamped_length (config pm) n <= maxAlloc ->
   2 * clamped_length (config pm) n <= free_memory ->
   exists s k',
     GenerateRandomPassword free_memory rand_Read pm n k = Some ((s, None), k') /\
     len s = clamped_length (config pm) n).
Proof.
  unfold GenerateRandomPassword. fold (clamped_length (config pm) n).
  pose proof (build_charset_ok rand_Read clock (config pm) k) as Hb.
  destruct (build_charset rand_Read (config pm) k) as [[[charset required] k1] |] eqn:Eb;
    [| contradiction].
  clear Hb. unfold bind at 1 3. rewrite Eb.
  pose proof Eb as Eb'. apply build_charset_result in Eb' as (_ & Hcs & _).
  rewrite Hcs. split.
  - intros HL. unfold bind, generate_password.
    assert ((clamped_length (config pm) n <? 0) ||
            (maxAlloc <? clamped_length (config pm) n) = true) as -> by lia.
    reflexivity.
  - intros HL Hmem.
    destruct (generate_password_total (clamped_length (config pm) n)
                (charset_of (config pm)) required k1 (charset_of_nonempty _) HL
                ltac:(lia))
      as (pw & k2 & Eg).
    unfold bind. rewrite Eg.
    apply generate_password_alphabet in Eg as (_ & Hlen & _).
    + assert ((free_memory - clamped_length (config pm) n <?
               Z.of_nat (List.length pw)) = false) as -> by lia.
      unfold ret. exists (string_of pw), k2. split; [reflexivity |].
      rewrite len_string_of. exact Hlen.
    + rewrite <- Hcs. pose proof (build_charset_alphabet _ _ _ _ _ Eb) as Hreq.
      destruct (String.eqb_spec charset "") as [-> | Hne]; [| exact Hreq].
      destruct required as [| c required]; [constructor |].
      apply Forall_cons in Hreq as [Hc _]. inversion Hc.
Qed.

End Alphabet.

(** X14 at the default policy and a source whose reads all fail. *)
Lemma GenerateRandomPassword_total_witness :
  exists s k',
    GenerateRandomPassword ample_memory failing_source New 20 0%nat = Some ((s, None), k') /\
    len s = 20.
Proof.
  apply (GenerateRandomPassword_total ample_memory failing_source).
  - intros k. simpl. lia.
  - vm_compute. split; discriminate.
  - vm_compute. discriminate.
Defined.

(** X15 at the default policy: the password of the run with
    [healthy_source] holds letters and digits only. *)
Lemma GenerateRandomPassword_alphabet_witness :
  forallb (fun c => existsb (Ascii.eqb c) (bytes_of (charset_of (config New))))
    (bytes_of "dK7yFMT07els") = true.
Proof.
  apply forallb_forall. intros c Hc. apply existsb_exists. exists c.
  split; [| apply Ascii.eqb_refl].
  apply (GenerateRandomPassword_alphabet ample_memory healthy_source New 12 0%nat 24%nat
           "dK7yFMT07els" None); [vm_compute; reflexivity | exact Hc].
Defined.

(** ** Reversal and sequences on ASCII strings *)

Lemma is_ascii_Forall (s : string) :
  is_ascii_string s = true <-> Forall (fun c => byte_val c < 128) (bytes_of s).
Proof.
  unfold is_ascii_string, RuneSelf. rewrite forallb_forall, Forall_forall. split.
  - intros H c Hc. apply list_elem_of_In, H in Hc. lia.
  - intros H c Hc. apply list_elem_of_In, H in Hc. lia.
Qed.

Lemma decode_ascii (bs : list ascii) :
  Forall (fun c => byte_val c < 128) bs ->
  decode_from (map byte_val bs) 0 = map byte_val bs.
Proof.
  induction 1 as [| c bs Hc _ IH]; [reflexivity |].
  simpl. unfold decodeRune, RuneSelf.
  assert ((byte_val c <? 128) = true) as -> by lia.
  simpl. rewrite IH. reflexivity.
Qed.

Lemma byte_of_byte_val (c : ascii) : byte_of (byte_val c) = c.
Proof.
  unfold byte_of, byte_val. rewrite N2Z.id. apply ascii_N_embedding.
Qed.

Lemma encode_ascii (bs : list ascii) :
  Forall (fun c => byte_val c < 128) bs ->
  concat (map encodeRune (map byte_val bs)) = bs.
Proof.
  induction 1 as [| c bs Hc _ IH]; [reflexivity |].
  simpl. rewrite IH. unfold encodeRune.
  pose proof (byte_val_bounds c).
  assert ((0 <=? byte_val c) && (byte_val c <? 128) = true) as -> by lia.
  rewrite byte_of_byte_val. reflexivity.
Qed.

Lemma reverse_ascii_bytes (s : string) :
  is_ascii_string s = true -> reverse s = string_of (rev (bytes_of s)).
Proof.
  intros Hs. apply is_ascii_Forall in Hs.
  unfold reverse, runes, string_of_runes.
  rewrite (decode_ascii _ Hs), <- map_rev, encode_ascii; [reflexivity |].
  apply Forall_rev. exact Hs.
Qed.

(** X16. On a string of ASCII bytes, [reverse] returns the bytes in
    the opposite order: the result has the same length, and reversing
    twice gives the string back. *)
Theorem reverse_ascii (s : string) :
  is_ascii_string s = true ->
  bytes_of (reverse s) = rev (bytes_of s) /\
  len (reverse s) = len s /\
  reverse (reverse s) = s.
Proof.
  intros Hs. pose proof (reverse_ascii_bytes s Hs) as E.
  assert (bytes_of (reverse s) = rev (bytes_of s)) as Hb
    by (rewrite E; apply bytes_of_string_of).
  split; [exact Hb | split].
  - rewrite <- !length_bytes_of, Hb, length_rev. reflexivity.
  - rewrite reverse_ascii_bytes.
    + rewrite Hb, rev_involutive. apply string_of_bytes_of.
    + apply is_ascii_Forall. rewrite Hb. apply Forall_rev.
      apply is_ascii_Forall. exact Hs.
Qed.

(** X16 at the keyboard sequence of [hasSequentialChars]. *)
Lemma reverse_ascii_witness :
  bytes_of (reverse "qwertyuiopasdfghjklzxcvbnm") =
    rev (bytes_of "qwertyuiopasdfghjklzxcvbnm") /\
  len (reverse "qwertyuiopasdfghjklzxcvbnm") = len "qwertyuiopasdfghjklzxcvbnm" /\
  reverse (reverse "qwertyuiopasdfghjklzxcvbnm") = "qwertyuiopasdfghjklzxcvbnm".
Proof.
  apply (reverse_ascii "qwertyuiopasdfghjklzxcvbnm"). vm_compute. reflexivity.
Defined.

Lemma lower_byte_not_upper (c : ascii) :
  ~ (rn "A" <= byte_val (lower_byte c) <= rn "Z").
Proof.
  unfold lower_byte. change (rn "A") with 65. change (rn "Z") with 90.
  change (rn "a") with 97.
  destruct ((65 <=? byte_val c) && (byte_val c <=? 90)) eqn:E.
  - rewrite byte_val_byte_of by lia. lia.
  - lia.
Qed.

Lemma lower_byte_idem (c : ascii) : lower_byte (lower_byte c) = lower_byte c.
Proof.
  pose proof (lower_byte_not_upper c) as H.
  unfold lower_byte at 1.
  destruct ((rn "A" <=? byte_val (lower_byte c)) &&
            (byte_val (lower_byte c) <=? rn "Z")) eqn:E; [lia | reflexivity].
Qed.

Lemma lower_byte_ascii (c : ascii) :
  byte_val c < 128 -> byte_val (lower_byte c) < 128.
Proof.
  intros Hc. unfold lower_byte. change (rn "A") with 65. change (rn "Z") with 90.
  change (rn "a") with 97.
  destruct ((65 <=? byte_val c) && (byte_val c <=? 90)) eqn:E; [| exact Hc].
  rewrite byte_val_byte_of by lia. lia.
Qed.

Lemma prefix_head (c : ascii) (sub t : string) :
  String.prefix (String c sub) t = true -> exists t', t = String c t'.
Proof.
  destruct t as [| c' t']; simpl; [discriminate |].
  destruct (ascii_dec c c') as [-> | Hne]; [eauto | discriminate].
Qed.

Lemma strings_Contains_head (t : string) (c : ascii) (sub : string) :
  strings_Contains t (String c sub) = true -> In c (bytes_of t).
Proof.
  induction t as [| c' t IH].
  - simpl. discriminate.
  - intros H. cbn [strings_Contains] in H. apply orb_true_iff in H as [H | H].
    + apply prefix_head in H as (t' & E). inversion E; subst. left. reflexivity.
    + right. apply IH, H.
Qed.

Section Sequences.

Variable unicode_table : rune -> rune.

Lemma strings_ToLower_ascii (s : string) :
  is_ascii_string s = true ->
  strings_ToLower unicode_table s = string_of (map lower_byte (bytes_of s)).
Proof. intros Hs. unfold strings_ToLower. rewrite Hs. reflexivity. Qed.

Lemma strings_ToLower_is_ascii (s : string) :
  is_ascii_string s = true ->
  is_ascii_string (strings_ToLower unicode_table s) = true.
Proof.
  intros Hs. rewrite strings_ToLower_ascii by exact Hs.
  apply is_ascii_Forall. rewrite bytes_of_string_of.
  apply is_ascii_Forall in Hs. apply Forall_map.
  eapply Forall_impl; [exact Hs |]. intros c Hc. apply lower_byte_ascii, Hc.
Qed.

Lemma strings_ToLower_idem (s : string) :
  is_ascii_string s = true ->
  strings_ToLower unicode_table (strings_ToLower unicode_table s) =
  strings_ToLower unicode_table s.
Proof.
  intros Hs.
  rewrite (strings_ToLower_ascii _ (strings_ToLower_is_ascii s Hs)).
  rewrite (strings_ToLower_ascii s Hs), bytes_of_string_of, map_map.
  f_equal. apply map_ext. intros c. apply lower_byte_idem.
Qed.

Lemma no_upper_window (s sequence : string) :
  is_ascii_string s = true ->
  forallb
    (fun i => match str_slice sequence i 3 with
              | String c _ => (rn "A" <=? byte_val c) && (byte_val c <=? rn "Z")
              | EmptyString => false
              end)
    (seq 0 (Z.to_nat (len sequence - 3 + 1))) = true ->
  containsSequence unicode_table s sequence 3 = false.
Proof.
  intros Hs Hall. apply not_true_iff_false. intros H.
  unfold containsSequence in H.
  apply existsb_exists in H as (i & Hi & H).
  rewrite forallb_forall in Hall. specialize (Hall i Hi).
  change (Z.to_nat 3) with 3%nat in H.
  destruct (str_slice sequence i 3) as [| c rest]; [discriminate |].
  apply strings_Contains_head in H.
  rewrite strings_ToLower_ascii in H by exact Hs.
  rewrite bytes_of_string_of in H.
  apply in_map_iff in H as (c0 & <- & _).
  pose proof (lower_byte_not_upper c0). lia.
Qed.

(** X17. On a string of ASCII bytes, [hasSequentialChars] does not tell
    upper case from lower case: it gives the same answer for the string
    and for its lower-cased form. The upper-case alphabet in its list of
    sequences never matches, forward or reversed, since the string is
    lower-cased before the search. *)
Theorem hasSequentialChars_ascii (s : string) :
  is_ascii_string s = true ->
  hasSequentialChars unicode_table (strings_ToLower unicode_table s) =
    hasSequentialChars unicode_table s /\
  containsSequence unicode_table s "ABCDEFGHIJKLMNOPQRSTUVWXYZ" 3 = false /\
  containsSequence unicode_table s (reverse "ABCDEFGHIJKLMNOPQRSTUVWXYZ") 3 = false.
Proof.
  intros Hs. split; [| split].
  - unfold hasSequentialChars, containsSequence.
    rewrite (strings_ToLower_idem s Hs).
    assert (len (strings_ToLower unicode_table s) = len s) as ->.
    { rewrite strings_ToLower_ascii by exact Hs.
      rewrite len_string_of, length_map. apply length_bytes_of. }
    reflexivity.
  - apply no_upper_window; [exact Hs | reflexivity].
  - apply no_upper_window; [exact Hs | vm_compute; reflexivity].
Qed.

End Sequences.

(** X17 at the string ["xABCy"]. *)
Lemma hasSequentialChars_ascii_witness :
  hasSequentialChars Plain.table (strings_ToLower Plain.table "xABCy") =
    hasSequentialChars Plain.table "xABCy" /\
  containsSequence Plain.table "xABCy" "ABCDEFGHIJKLMNOPQRSTUVWXYZ" 3 = false /\
  containsSequence Plain.table "xABCy" (reverse "ABCDEFGHIJKLMNOPQRSTUVWXYZ") 3 = false.
Proof.
  apply (hasSequentialChars_ascii Plain.table "xABCy"). vm_compute. reflexivity.
Defined.
